(** * notas-ia: the note list of [App.tsx]

    A shallow embedding of the single component of the application: the
    four SQL statements it sends to the [notes] table, the React state of
    [App] and its event handlers, followed by the properties of the
    create / search / paginate flow.

    Conventions of the model.
    - A string is a [string] read one character per [ascii], the code
      points 0..255.
    - A row id is a [Z] (SQLite's 64 bit rowid); [limit], [page] and the
      offsets are natural numbers, as the counters of the component are.
    - The [notes] table is a finite map from id to text, the primary key
      being the key of the map.
    - A handler reads the state variables of the render that created it
      and writes through the setters; the two are kept apart. *)

From stdpp Require Import gmap strings list sorting pretty.
From Stdlib Require Import ZArith Ascii.

Local Open Scope Z_scope.

(** ** Strings: [String.prototype.trim] and the [LIKE] operator *)

Module Text.

(** The white space of ECMAScript among the characters 0..255: TAB, LF,
    VT, FF, CR, SPACE and NBSP. *)
Definition isWhiteSpace (c : ascii) : bool :=
  let n := N_of_ascii c in
  ((9 <=? n) && (n <=? 13) || (n =? 32) || (n =? 160))%N.

Fixpoint trimStart (s : string) : string :=
  match s with
  | EmptyString => EmptyString
  | String c s' => if isWhiteSpace c then trimStart s' else s
  end.

Fixpoint trimEnd (s : string) : string :=
  match s with
  | EmptyString => EmptyString
  | String c s' =>
      match trimEnd s' with
      | EmptyString => if isWhiteSpace c then EmptyString else String c EmptyString
      | t => String c t
      end
  end.

(** [s.trim()] *)
Definition trim (s : string) : string := trimEnd (trimStart s).

(** [!s] on a string: only the empty string is falsy. *)
Definition falsy (s : string) : bool :=
  match s with EmptyString => true | String _ _ => false end.

(** Every character is white space. *)
Fixpoint blank (s : string) : bool :=
  match s with
  | EmptyString => true
  | String c s' => isWhiteSpace c && blank s'
  end.

(** SQLite folds the case of the letters A..Z only. *)
Definition tolower (c : ascii) : ascii :=
  let n := N_of_ascii c in
  if ((65 <=? n) && (n <=? 90))%N then ascii_of_N (n + 32) else c.

Definition percent : ascii := "%"%char.
Definition underscore : ascii := "_"%char.

(** [text LIKE pattern], no ESCAPE clause, default case folding: [%]
    stands for any run of characters, [_] for one character, any other
    character for itself up to the case of A..Z.  (The bound SQLite puts
    on the length of a pattern is in [SQLite.getAllAsync].) *)
Fixpoint like (pattern : string) : string -> bool :=
  match pattern with
  | EmptyString => fun text => falsy text
  | String p pattern' =>
      if Ascii.eqb p percent then
        fix any_run (text : string) : bool :=
          like pattern' text ||
          match text with
          | EmptyString => false
          | String _ text' => any_run text'
          end
      else if Ascii.eqb p underscore then
        fun text =>
          match text with
          | EmptyString => false
          | String _ text' => like pattern' text'
          end
      else
        fun text =>
          match text with
          | EmptyString => false
          | String c text' => Ascii.eqb (tolower p) (tolower c) && like pattern' text'
          end
  end.

(** [term] occurs in [text], character for character. *)
Definition substring_of (term text : string) : Prop :=
  exists pre post, text = pre +:+ term +:+ post.

Fixpoint starts_with (term text : string) : bool :=
  match term, text with
  | EmptyString, _ => true
  | String a term', String b text' => Ascii.eqb a b && starts_with term' text'
  | String _ _, EmptyString => false
  end.

(** [text.includes(term)]: the decidable form of [substring_of]. *)
Fixpoint includes (term text : string) : bool :=
  starts_with term text ||
  match text with
  | EmptyString => false
  | String _ text' => includes term text'
  end.

(** The same up to the case of A..Z, and with no wild card. *)
Fixpoint same_nocase (a b : string) : bool :=
  match a, b with
  | EmptyString, EmptyString => true
  | String x a', String y b' => Ascii.eqb (tolower x) (tolower y) && same_nocase a' b'
  | _, _ => false
  end.

Fixpoint no_wildcard (s : string) : bool :=
  match s with
  | EmptyString => true
  | String c s' =>
      negb (Ascii.eqb c percent) && negb (Ascii.eqb c underscore) && no_wildcard s'
  end.

End Text.

(** ** The [notes] table and the statements sent to it *)

(** A row of [notes], as [getAllAsync] returns it: [{ id, note }]. *)
Record Note := mkNote { id : Z; note : string }.

Global Instance Note_eq_dec : EqDecision Note.
Proof. solve_decision. Defined.

Module SQLite.

(** [notes (id INTEGER PRIMARY KEY AUTOINCREMENT, note TEXT)]: the rows,
    and the counter that AUTOINCREMENT keeps in [sqlite_sequence]. *)
Record DB := mkDB { rows : gmap Z string; seq : Z }.

(** The table that [CREATE TABLE IF NOT EXISTS] makes. *)
Definition empty_db : DB := {| rows := ∅; seq := 0 |}.

Definition MAX_ROWID : Z := 9223372036854775807.

Definition max_rowid (m : gmap Z string) : Z :=
  foldr Z.max 0 (map_to_list m).*1.

(** The largest id that was ever in the table. *)
Definition high_water (d : DB) : Z := Z.max (seq d) (max_rowid (rows d)).

(** The id AUTOINCREMENT gives to the next row: one more than the
    largest id of the table (1 for an empty table) or than the counter,
    whichever is larger; the counter starts at 0 and only grows. *)
Definition next_rowid (d : DB) : Z := high_water d + 1.

Inductive Statement :=
| INSERT_INTO_notes (text : string)           (* INSERT INTO notes (note) VALUES (?); *)
| UPDATE_notes_SET (text : string) (i : Z)    (* UPDATE notes SET note = ? WHERE id = ?; *)
| DELETE_FROM_notes (i : Z).                  (* DELETE FROM notes WHERE id = ?; *)

Inductive Error := SQLITE_FULL | SQLITE_ERROR.

(** A promise of the driver, once settled. *)
Inductive Settled (A : Type) :=
| Resolved (a : A)
| Rejected (e : Error).
Arguments Resolved {A} a.
Arguments Rejected {A} e.

(** [db.runAsync(statement, params)]: the table afterwards.  An insert
    is refused once the largest id has been used. *)
Definition runAsync (s : Statement) (d : DB) : Settled DB :=
  match s with
  | INSERT_INTO_notes text =>
      if MAX_ROWID <=? high_water d then Rejected SQLITE_FULL
      else Resolved {| rows := <[next_rowid d := text]> (rows d); seq := next_rowid d |}
  | UPDATE_notes_SET text i =>
      Resolved {| rows := alter (fun _ => text) i (rows d); seq := seq d |}
  | DELETE_FROM_notes i =>
      Resolved {| rows := delete i (rows d); seq := seq d |}
  end.

(** [SELECT * FROM notes]: the rows in no particular order. *)
Definition scan (d : DB) : list Note :=
  (fun r => mkNote r.1 r.2) <$> map_to_list (rows d).

(** [ORDER BY id DESC] *)
Definition id_desc (a b : Note) : Prop := id b <= id a.

Global Instance id_desc_dec a b : Decision (id_desc a b).
Proof. unfold id_desc. apply _. Defined.

Definition order_by_id_desc : list Note -> list Note := merge_sort id_desc.

(** [... WHERE note LIKE ? ORDER BY id DESC], before LIMIT and OFFSET. *)
Definition where_like (pattern : string) (d : DB) : list Note :=
  order_by_id_desc (filter (fun n => Text.like pattern (note n) = true) (scan d)).

(** [... LIMIT ? OFFSET ?]: the rows of the answer. *)
Definition select_rows (pattern : string) (limit offset : nat) (d : DB) : list Note :=
  take limit (drop offset (where_like pattern d)).

(** The number of bytes of a string bound to a statement (UTF-8: one
    byte up to character 127, two from 128 to 255). *)
Fixpoint utf8_length (s : string) : N :=
  match s with
  | EmptyString => 0
  | String c s' => ((if (N_of_ascii c <? 128)%N then 1 else 2) + utf8_length s')%N
  end.

Definition SQLITE_MAX_LIKE_PATTERN_LENGTH : N := 50000.

(** [LIKE] refuses a pattern of more bytes than the bound ("LIKE or GLOB
    pattern too complex"). *)
Definition pattern_ok (pattern : string) : bool :=
  (utf8_length pattern <=? SQLITE_MAX_LIKE_PATTERN_LENGTH)%N.

(** The statement calls [LIKE] on the rows it visits, the newest first,
    until it has [limit] rows to give: it visits none when [limit] is 0
    or the table is empty, and the newest row otherwise. *)
Definition visits_a_row (limit : nat) (d : DB) : bool :=
  negb (limit =? 0)%nat && negb (bool_decide (rows d = ∅)).

(** [db.getAllAsync("SELECT * FROM notes WHERE note LIKE ? ORDER BY id
    DESC LIMIT ? OFFSET ?;", [pattern, limit, offset])]: the promise
    resolves with the rows, or is rejected when [LIKE] is called with a
    pattern that is too long. *)
Definition getAllAsync (pattern : string) (limit offset : nat) (d : DB)
  : Settled (list Note) :=
  if pattern_ok pattern || negb (visits_a_row limit d)
  then Resolved (select_rows pattern limit offset d)
  else Rejected SQLITE_ERROR.

End SQLite.

(** ** The four calls, under the names of the specification *)

Module Gateway.
Import SQLite.

(** The SELECT of [loadNotes], its pattern being [`%${term}%`]: the
    settled promise. *)
Definition query (term : string) (limit offset : nat) (d : DB) : Settled (list Note) :=
  getAllAsync ("%" +:+ term +:+ "%") limit offset d.

(** The query is answered: the pattern of the term is within the bound
    of [LIKE], or no row is visited.  It is rejected otherwise. *)
Definition answers (term : string) (limit : nat) (d : DB) : bool :=
  pattern_ok ("%" +:+ term +:+ "%") || negb (visits_a_row limit d).

(** The rows the query resolves with, when it is answered. *)
Definition search (term : string) (limit offset : nat) (d : DB) : list Note :=
  select_rows ("%" +:+ term +:+ "%") limit offset d.

(** The INSERT of [addNote]. *)
Definition create (text : string) (d : DB) : Settled DB :=
  runAsync (INSERT_INTO_notes text) d.

(** The UPDATE of [updateNote]. *)
Definition update (i : Z) (text : string) (d : DB) : Settled DB :=
  runAsync (UPDATE_notes_SET text i) d.

(** The DELETE of [deleteNote]. *)
Definition delete (i : Z) (d : DB) : Settled DB :=
  runAsync (DELETE_FROM_notes i) d.

(** The table has a row with the id and the text of [n]. *)
Definition stored (d : DB) (n : Note) : Prop := rows d !! id n = Some (note n).

(** Ids go strictly down along the list. *)
Definition strictly_descending (l : list Note) : Prop :=
  StronglySorted (fun a b => id b < id a) l.

(** *** Sequences of operations and what the store answered *)

Inductive Op :=
| Create (text : string)
| Update (i : Z) (text : string)
| Delete (i : Z).

(** The journal of a run: a create with the id the store gave it, an
    update and a delete with the id they were called on. *)
Inductive Entry :=
| Created (i : Z) (text : string)
| Updated (i : Z) (text : string)
| Deleted (i : Z).

Global Instance Entry_eq_dec : EqDecision Entry.
Proof. solve_decision. Defined.

Definition apply_op (d : DB) (o : Op) : DB * list Entry :=
  match o with
  | Create text =>
      match create text d with
      | Resolved d' => (d', [Created (next_rowid d) text])
      | Rejected _ => (d, [])
      end
  | Update i text =>
      match update i text d with
      | Resolved d' => (d', [Updated i text])
      | Rejected _ => (d, [])
      end
  | Delete i =>
      match delete i d with
      | Resolved d' => (d', [Deleted i])
      | Rejected _ => (d, [])
      end
  end.

Definition execute (ops : list Op) (d : DB) : DB * list Entry :=
  foldl (fun acc o => let r := apply_op acc.1 o in (r.1, acc.2 ++ r.2)) (d, []) ops.

(** The text of note [i] after the entries [l], when it was [t0] before:
    that of the last update of [i] in [l], if there is one. *)
Definition last_text (i : Z) (t0 : string) (l : list Entry) : string :=
  foldl (fun t e =>
           match e with
           | Updated j text => if decide (j = i) then text else t
           | _ => t
           end) t0 l.

(** Note [n] was created at some point of the journal, was not deleted
    afterwards, and carries the text of its last create or update. *)
Definition survives (journal : list Entry) (n : Note) : Prop :=
  exists before t0 after,
    journal = before ++ Created (id n) t0 :: after /\
    (Deleted (id n) ∉ after) /\
    note n = last_text (id n) t0 after.

(** The ids the store gave out, in the order of the journal. *)
Definition created_ids (journal : list Entry) : list Z :=
  omap (fun e => match e with Created i _ => Some i | _ => None end) journal.

(** The table and the journal of a run agree, and no id of the journal
    is above the counter of the table. *)
Definition agree (d : DB) (journal : list Entry) : Prop :=
  (forall n, stored d n <-> survives journal n) /\
  (forall i t, Created i t ∈ journal -> i <= seq d) /\
  NoDup (created_ids journal).

End Gateway.

(** ** The component [App] *)

Module App.
Import SQLite.

Definition limit : nat := 50.

(** The [useState] cells of [App]. *)
Record State := mkState {
  notes : list Note;
  search : string;
  modalVisible : bool;
  modalDeleteVisible : bool;
  currentNote : string;
  editingNoteId : option Z;
  deleteNoteId : option Z;
  page : nat
}.

(** The initial values given to [useState]. *)
Definition initial : State :=
  {| notes := []; search := ""; modalVisible := false; modalDeleteVisible := false;
     currentNote := ""; editingNoteId := None; deleteNoteId := None; page := 0 |}.

(** What a handler can touch: the module variable [db] ([None] is
    [null], otherwise the open table) and the cells. *)
Record World := mkWorld { db : option DB; cells : State }.

(** What stops a handler: a promise of the driver that is rejected, or a
    method called on [null]. *)
Inductive Exception :=
| SqlError (e : Error)
| TypeError.

(** A handler runs to its end or stops at an exception. *)
Inductive Outcome (A : Type) :=
| Returned (a : A) (w : World)
| Thrown (e : Exception) (w : World).
Arguments Returned {A} a w.
Arguments Thrown {A} e w.

Definition M (A : Type) : Type := World -> Outcome A.

Global Instance M_ret : MRet M := fun A a w => Returned a w.
Global Instance M_bind : MBind M := fun A B f m w =>
  match m w with
  | Returned a w' => f a w'
  | Thrown e w' => Thrown e w'
  end.

Definition world_of {A} (o : Outcome A) : World :=
  match o with Returned _ w => w | Thrown _ w => w end.

(** *** The driver calls *)

Definition read_db : M (option DB) := fun w => Returned (db w) w.

Definition db_runAsync (s : Statement) : M unit := fun w =>
  match db w with
  | None => Thrown TypeError w
  | Some d =>
      match runAsync s d with
      | Resolved d' => Returned tt {| db := Some d'; cells := cells w |}
      | Rejected e => Thrown (SqlError e) w
      end
  end.

Definition db_getAllAsync (pattern : string) (limit offset : nat) : M (list Note) :=
  fun w =>
    match db w with
    | None => Thrown TypeError w
    | Some d =>
        match getAllAsync pattern limit offset d with
        | Resolved results => Returned results w
        | Rejected e => Thrown (SqlError e) w
        end
    end.

(** *** The cells, one at a time *)

Definition put_notes (v : list Note) (s : State) : State :=
  {| notes := v; search := search s; modalVisible := modalVisible s;
     modalDeleteVisible := modalDeleteVisible s; currentNote := currentNote s;
     editingNoteId := editingNoteId s; deleteNoteId := deleteNoteId s; page := page s |}.

Definition put_search (v : string) (s : State) : State :=
  {| notes := notes s; search := v; modalVisible := modalVisible s;
     modalDeleteVisible := modalDeleteVisible s; currentNote := currentNote s;
     editingNoteId := editingNoteId s; deleteNoteId := deleteNoteId s; page := page s |}.

Definition put_modalVisible (v : bool) (s : State) : State :=
  {| notes := notes s; search := search s; modalVisible := v;
     modalDeleteVisible := modalDeleteVisible s; currentNote := currentNote s;
     editingNoteId := editingNoteId s; deleteNoteId := deleteNoteId s; page := page s |}.

Definition put_modalDeleteVisible (v : bool) (s : State) : State :=
  {| notes := notes s; search := search s; modalVisible := modalVisible s;
     modalDeleteVisible := v; currentNote := currentNote s;
     editingNoteId := editingNoteId s; deleteNoteId := deleteNoteId s; page := page s |}.

Definition put_currentNote (v : string) (s : State) : State :=
  {| notes := notes s; search := search s; modalVisible := modalVisible s;
     modalDeleteVisible := modalDeleteVisible s; currentNote := v;
     editingNoteId := editingNoteId s; deleteNoteId := deleteNoteId s; page := page s |}.

Definition put_editingNoteId (v : option Z) (s : State) : State :=
  {| notes := notes s; search := search s; modalVisible := modalVisible s;
     modalDeleteVisible := modalDeleteVisible s; currentNote := currentNote s;
     editingNoteId := v; deleteNoteId := deleteNoteId s; page := page s |}.

Definition put_deleteNoteId (v : option Z) (s : State) : State :=
  {| notes := notes s; search := search s; modalVisible := modalVisible s;
     modalDeleteVisible := modalDeleteVisible s; currentNote := currentNote s;
     editingNoteId := editingNoteId s; deleteNoteId := v; page := page s |}.

Definition put_page (v : nat) (s : State) : State :=
  {| notes := notes s; search := search s; modalVisible := modalVisible s;
     modalDeleteVisible := modalDeleteVisible s; currentNote := currentNote s;
     editingNoteId := editingNoteId s; deleteNoteId := deleteNoteId s; page := v |}.

(** *** The setters

    A setter writes the cell; what the running handler reads is not
    affected, since it reads the variables of its own render. *)

Definition set_cells (f : State -> State) : M unit := fun w =>
  Returned tt {| db := db w; cells := f (cells w) |}.

Definition setNotes (v : list Note) : M unit := set_cells (put_notes v).
Definition setSearch (v : string) : M unit := set_cells (put_search v).
Definition setModalVisible (v : bool) : M unit := set_cells (put_modalVisible v).
Definition setModalDeleteVisible (v : bool) : M unit :=
  set_cells (put_modalDeleteVisible v).
Definition setCurrentNote (v : string) : M unit := set_cells (put_currentNote v).
Definition setEditingNoteId (v : option Z) : M unit := set_cells (put_editingNoteId v).
Definition setDeleteNoteId (v : option Z) : M unit := set_cells (put_deleteNoteId v).

(** [setPage(v)] *)
Definition setPage (v : nat) : M unit := set_cells (put_page v).

(** [setPage(prev => f(prev))]: the updater is given the latest value. *)
Definition setPage_with (f : nat -> nat) : M unit :=
  set_cells (fun s => put_page (f (page s)) s).

(** *** The functions of the component

    Each takes [r], the values the state variables had in the render
    that created the function. *)

Definition is_null (d : option DB) : bool :=
  match d with None => true | Some _ => false end.

Definition loadNotes (r : State) : M unit :=
  d ← read_db;
  match d with
  | None => mret tt
  | Some _ =>
      results ← db_getAllAsync ("%" +:+ search r +:+ "%") limit (page r * limit);
      setNotes (if decide (page r = 0%nat) then results else notes r ++ results)
  end.

(** [loadNotes();] with no [await]: the caller goes on, and ends, whether
    the promise of [loadNotes] is fulfilled or rejected; what [loadNotes]
    wrote before a rejection stays written. *)
Definition not_awaited (m : M unit) : M unit := fun w =>
  Returned tt (world_of (m w)).

(** The world after a call of [loadNotes] that is not awaited. *)
Definition reload (r : State) (w : World) : World := world_of (loadNotes r w).

(** What [loadNotes] puts in [notes] when its query is answered: the
    rows of the page its render knows, alone after page 0 and after the
    notes of its render otherwise. *)
Definition loaded (r : State) (d : DB) : list Note :=
  let results := Gateway.search (search r) limit (page r * limit) d in
  if decide (page r = 0%nat) then results else notes r ++ results.

Definition addNote (r : State) : M unit :=
  d ← read_db;
  if Text.falsy (Text.trim (currentNote r)) || is_null d then mret tt
  else
    db_runAsync (INSERT_INTO_notes (currentNote r));;
    setCurrentNote "";;
    setModalVisible false;;
    setPage 0;;
    not_awaited (loadNotes r).

(** The guard of [updateNote] has three tests; the one on
    [editingNoteId] is the [match], which also gives the id to the
    statement. *)
Definition updateNote (r : State) : M unit :=
  d ← read_db;
  match editingNoteId r with
  | Some i =>
      if Text.falsy (Text.trim (currentNote r)) || is_null d then mret tt
      else
        db_runAsync (UPDATE_notes_SET (currentNote r) i);;
        setModalVisible false;;
        setCurrentNote "";;
        setEditingNoteId None;;
        setPage 0;;
        not_awaited (loadNotes r)
  | None => mret tt
  end.

Definition deleteNote (r : State) : M unit :=
  d ← read_db;
  match deleteNoteId r with
  | Some i =>
      if is_null d then mret tt
      else
        db_runAsync (DELETE_FROM_notes i);;
        setModalDeleteVisible false;;
        setDeleteNoteId None;;
        setPage 0;;
        not_awaited (loadNotes r)
  | None => mret tt
  end.

Definition openEditModal (text : string) (i : Z) : M unit :=
  setCurrentNote text;;
  setEditingNoteId (Some i);;
  setModalVisible true.

Definition openAddModal : M unit :=
  setCurrentNote "";;
  setEditingNoteId None;;
  setModalVisible true.

(** [editingNoteId ? updateNote : addNote]: [null] and [0] are falsy. *)
Definition truthy_id (v : option Z) : bool :=
  match v with
  | Some i => negb (i =? 0)
  | None => false
  end.

Definition onSave (r : State) : M unit :=
  if truthy_id (editingNoteId r) then updateNote r else addNote r.

(** *** The events of the view *)

Inductive Event :=
| SearchChangeText (text : string)   (* onChangeText of the search field *)
| EndReached                         (* onEndReached of the list *)
| PressCard (item : Note)            (* onPress of a card *)
| PressTrash (item : Note)           (* onPress of the trash icon of a card *)
| PressAdd                           (* the floating button *)
| PressClose                         (* X of the add/edit dialog *)
| DraftChangeText (text : string)    (* onChangeText of the dialog's field *)
| PressSave                          (* Salvar *)
| PressSim                           (* Sim of the delete dialog *)
| PressNao.                          (* Nao of the delete dialog *)

Definition handler (r : State) (e : Event) : M unit :=
  match e with
  | SearchChangeText text => setSearch text;; setPage 0;; not_awaited (loadNotes r)
  | EndReached => setPage_with (fun prev => prev + 1)%nat;; not_awaited (loadNotes r)
  | PressCard item => openEditModal (note item) (id item)
  | PressTrash item => setDeleteNoteId (Some (id item));; setModalDeleteVisible true
  | PressAdd => openAddModal
  | PressClose => setModalVisible false
  | DraftChangeText text => setCurrentNote text
  | PressSave => onSave r
  | PressSim => deleteNote r
  | PressNao => setModalDeleteVisible false
  end.

(** An event runs the handler of the latest render, whose variables
    hold the current cells.  Events are taken one at a time: a handler,
    the calls it awaits included, is over and the component has rendered
    again before the next event. *)
Definition fire (e : Event) (w : World) : Outcome unit := handler (cells w) e w.

Definition step (w : World) (e : Event) : World := world_of (fire e w).

Definition run (es : list Event) (w : World) : World := foldl step w es.

(** [initializeDB]: open [notes.db] ([disk] is the table found there,
    if any) and create the table when it is missing. *)
Definition initializeDB (disk : option DB) : M unit := fun w =>
  Returned tt {| db := Some (default empty_db disk); cells := cells w |}.

(** The effect of the first render: [initializeDB().then(loadNotes)]. *)
Definition mount (disk : option DB) : World :=
  let w := {| db := None; cells := initial |} in
  world_of ((initializeDB disk;; not_awaited (loadNotes (cells w))) w).

(** *** The dialogs, as the cells show them *)

Inductive EditDialog :=
| Closed
| EditingNew (draft : string)
| EditingExisting (i : Z) (draft : string).

Definition editDialog (s : State) : EditDialog :=
  if modalVisible s then
    match editingNoteId s with
    | None => EditingNew (currentNote s)
    | Some i => EditingExisting i (currentNote s)
    end
  else Closed.

(** No row of the table is made of white space only. *)
Definition no_blank_row (w : World) : Prop :=
  forall d i t, db w = Some d -> rows d !! i = Some t -> Text.blank t = false.

End App.

(** ** Sample tables *)

Module Sample.
Import SQLite Gateway.

(** [n] notes, with the ids 1..n, made by [n] inserts. *)
Definition filled (n : nat) : DB :=
  (execute (replicate n (Create "nota")) empty_db).1.

Definition fruits : DB :=
  (execute [Create "apple"; Create "banana"] empty_db).1.

Definition greeting : DB :=
  (execute [Create "Hello"] empty_db).1.

(** A term of 49999 letters: its pattern has 50001 bytes. *)
Definition long_term : string := N.iter 49999 (String "a"%char) "".

End Sample.

(** ** What the list renders *)

Module View.
Import SQLite App.

(** [Number.MAX_SAFE_INTEGER]: up to it, and down to its opposite, a JS
    number holds an integer exactly. *)
Definition MAX_SAFE_INTEGER : Z := 2 ^ 53 - 1.

(** [Number.isSafeInteger] on an integer. *)
Definition isSafeInteger (i : Z) : bool :=
  (- MAX_SAFE_INTEGER <=? i) && (i <=? MAX_SAFE_INTEGER).

(** [keyExtractor]: [item.id.toString()].  [item.id] is a JS number.  For
    a row whose id is a safe integer it is that id, and the key is its
    decimal digits.  Beyond the safe integers the number is a rounding of
    the id of the row and the digits of [toString] are those of the
    rounded number: no key is given here for such a row. *)
Definition keyExtractor (item : Note) : option string :=
  if isSafeInteger (id item) then Some (pretty (id item)) else None.

(** The text of a card in [renderItem]:
    [item.note.length > 30 ? item.note.substring(0, 30) + "..." : item.note]. *)
Definition cardText (item : Note) : string :=
  if (30 <? String.length (note item))%nat
  then String.substring 0 30 (note item) +:+ "..."
  else note item.

(** Every row of the table and every note of the list has an id of at
    least 1. *)
Definition ids_positive (w : World) : Prop :=
  (forall d i t, db w = Some d -> rows d !! i = Some t -> 1 <= i) /\
  (forall n, n ∈ notes (cells w) -> 1 <= id n).

End View.

(** * Properties *)

(** ** Worked examples *)

Section Examples.
Import SQLite Gateway.

Example like_substring : Text.like "%Call%" "Call Alice" = true.
Proof. reflexivity. Qed.

Example like_folds_case : Text.like "%hello%" "Hello" = true.
Proof. reflexivity. Qed.

Example like_underscore : Text.like "%a_c%" "xxabcxx" = true.
Proof. reflexivity. Qed.

Example like_order : Text.like "%ab%" "ba" = false.
Proof. reflexivity. Qed.

Example trim_examples : Text.trim "  a  " = "a" /\ Text.trim "   " = "".
Proof. split; reflexivity. Qed.

(** create "Buy milk", create "Call Alice", search "Call", delete 1,
    search "". *)
Example end_to_end :
  let d2 := (execute [Create "Buy milk"; Create "Call Alice"] empty_db).1 in
  let d3 := (execute [Delete 1] d2).1 in
  (execute [Create "Buy milk"; Create "Call Alice"] empty_db).2
    = [Created 1 "Buy milk"; Created 2 "Call Alice"] /\
  search "Call" 50 0 d2 = [mkNote 2 "Call Alice"] /\
  search "" 50 0 d3 = [mkNote 2 "Call Alice"].
Proof. repeat split; vm_compute; reflexivity. Qed.

(** create "abc", update it to "xyz", search "xyz". *)
Example create_update_search :
  let d := (execute [Create "abc"; Update 1 "xyz"] empty_db).1 in
  search "xyz" 10 0 d = [mkNote 1 "xyz"].
Proof. vm_compute. reflexivity. Qed.

(** The first render, then a scroll to the end, twice: the second one
    appends page 1. *)
Example scroll_twice :
  let w := App.run [App.EndReached; App.EndReached] (App.mount (Some (Sample.filled 51))) in
  App.page (App.cells w) = 2%nat /\
  length (App.notes (App.cells w)) = 51%nat.
Proof. split; vm_compute; reflexivity. Qed.

End Examples.

(** ** The table *)

Section Table.
Import SQLite Gateway.

Lemma elem_of_scan d n : n ∈ scan d <-> stored d n.
Proof.
  unfold scan, stored. rewrite list_elem_of_fmap. split.
  - intros [[i t] [-> H]]. by apply elem_of_map_to_list in H.
  - intros H. exists (id n, note n). split; [by destruct n|].
    by apply elem_of_map_to_list.
Qed.

Lemma scan_ids d : id <$> scan d = (map_to_list (rows d)).*1.
Proof. unfold scan. rewrite <- list_fmap_compose. by apply list_fmap_ext. Qed.

Lemma NoDup_scan_ids d : NoDup (id <$> scan d).
Proof. rewrite scan_ids. apply NoDup_fst_map_to_list. Qed.

Lemma length_scan d : length (scan d) = size (rows d).
Proof. unfold scan. rewrite length_fmap. apply length_map_to_list. Qed.

Lemma max_list_bound (l : list Z) k : k ∈ l -> k <= foldr Z.max 0 l.
Proof.
  induction l as [|x l IH]; intros H; [by apply elem_of_nil in H|].
  apply elem_of_cons in H as [->|H]; simpl; [lia|].
  specialize (IH H). lia.
Qed.

Lemma max_list_nonneg (l : list Z) : 0 <= foldr Z.max 0 l.
Proof. induction l; simpl; lia. Qed.

Lemma max_rowid_bound m i t : m !! i = Some t -> i <= max_rowid m.
Proof.
  intros H. apply max_list_bound, list_elem_of_fmap.
  exists (i, t). split; [done|]. by apply elem_of_map_to_list.
Qed.

Lemma high_water_bound d i t : rows d !! i = Some t -> i <= high_water d.
Proof. intros H%max_rowid_bound. unfold high_water. lia. Qed.

Lemma high_water_seq d : seq d <= high_water d.
Proof. unfold high_water. lia. Qed.

(** The next id is not in the table. *)
Lemma next_rowid_fresh d : rows d !! next_rowid d = None.
Proof.
  destruct (rows d !! next_rowid d) eqn:E; [|done].
  apply high_water_bound in E. unfold next_rowid in E. lia.
Qed.

Global Instance id_desc_total : Total id_desc.
Proof. intros a b. unfold id_desc. lia. Qed.

Global Instance id_desc_trans : Transitive id_desc.
Proof. intros a b c. unfold id_desc. lia. Qed.

Lemma order_by_id_desc_perm l : order_by_id_desc l ≡ₚ l.
Proof. apply merge_sort_Permutation. Qed.

Lemma strictly_descending_of_sorted l :
  NoDup (id <$> l) -> StronglySorted id_desc l -> strictly_descending l.
Proof.
  unfold strictly_descending.
  induction 2 as [|a l Hs IH Ha]; [constructor|].
  rewrite fmap_cons in H. apply NoDup_cons in H as [Hnot Hnd].
  constructor; [by apply IH|].
  apply Forall_forall. intros b Hb.
  rewrite Forall_forall in Ha. specialize (Ha b Hb). unfold id_desc in Ha.
  assert (id b <> id a).
  { intros E. apply Hnot. rewrite <- E. by apply list_elem_of_fmap_2. }
  lia.
Qed.

Lemma strictly_descending_sublist l k :
  k `sublist_of` l -> strictly_descending l -> strictly_descending k.
Proof.
  unfold strictly_descending. intros Hsub Hl. revert k Hsub.
  induction Hl as [|a l Hs IH Ha]; intros k Hsub.
  - apply sublist_nil_r in Hsub as ->. constructor.
  - apply sublist_cons_r in Hsub as [Hsub|(k' & -> & Hsub)]; [by apply IH|].
    constructor; [by apply IH|].
    apply Forall_forall. intros b Hb. rewrite Forall_forall in Ha.
    apply Ha. eapply elem_of_sublist; eauto.
Qed.

Lemma strictly_descending_NoDup l : strictly_descending l -> NoDup l.
Proof.
  unfold strictly_descending. induction 1 as [|a l Hs IH Ha]; [constructor|].
  apply NoDup_cons. split; [|done].
  intros Hin. rewrite Forall_forall in Ha. specialize (Ha a Hin). lia.
Qed.

Lemma elem_of_where_like pattern d n :
  n ∈ where_like pattern d <-> stored d n /\ Text.like pattern (note n) = true.
Proof.
  unfold where_like. rewrite order_by_id_desc_perm.
  rewrite list_elem_of_filter, elem_of_scan. tauto.
Qed.

Lemma where_like_descending pattern d : strictly_descending (where_like pattern d).
Proof.
  unfold where_like. apply strictly_descending_of_sorted.
  - rewrite order_by_id_desc_perm.
    apply (sublist_NoDup _ (id <$> scan d)); [apply NoDup_scan_ids|].
    apply fmap_sublist, sublist_filter.
  - apply StronglySorted_merge_sort; apply _.
Qed.

Lemma length_where_like pattern d : (length (where_like pattern d) <= size (rows d))%nat.
Proof.
  unfold where_like. rewrite order_by_id_desc_perm, <- length_scan.
  apply length_filter.
Qed.

End Table.

(** ** Patterns *)

Section Like.
Import Text.

Lemma append_cons c (a b : string) : String c a +:+ b = String c (a +:+ b).
Proof. reflexivity. Qed.

Lemma append_empty_l (b : string) : "" +:+ b = b.
Proof. reflexivity. Qed.

Lemma append_assoc (a b c : string) : (a +:+ b) +:+ c = a +:+ b +:+ c.
Proof.
  induction a as [|x a IH]; [reflexivity|].
  rewrite !append_cons. by rewrite IH.
Qed.

Lemma append_empty_r (a : string) : a +:+ "" = a.
Proof.
  induction a as [|x a IH]; [reflexivity|].
  rewrite append_cons. by rewrite IH.
Qed.

Lemma like_percent_unfold p text :
  like (String percent p) text =
  like p text || match text with
                 | EmptyString => false
                 | String _ text' => like (String percent p) text'
                 end.
Proof. by destruct text. Qed.

(** A leading [%] lets the rest of the pattern start anywhere. *)
Lemma like_percent p text :
  like (String percent p) text = true <->
  exists pre rest, text = pre +:+ rest /\ like p rest = true.
Proof.
  induction text as [|c text IH]; rewrite like_percent_unfold.
  - rewrite orb_false_r. split.
    + intros H. by exists "", "".
    + intros (pre & rest & E & H). by destruct pre, rest.
  - rewrite orb_true_iff, IH. split.
    + intros [H|(pre & rest & -> & H)].
      * by exists "", (String c text).
      * by exists (String c pre), rest.
    + intros (pre & rest & E & H).
      destruct pre as [|x pre]; rewrite ?append_cons, ?append_empty_l in E.
      * left. by subst rest.
      * right. injection E as -> ->. by exists pre, rest.
Qed.

Lemma like_only_percent text : like "%" text = true.
Proof. apply like_percent. exists text, "". by rewrite append_empty_r. Qed.

(** A trailing [%] lets the pattern end anywhere. *)
Lemma like_trailing_percent p : forall text,
  like (p +:+ "%") text = true <->
  exists mid post, text = mid +:+ post /\ like p mid = true.
Proof.
  induction p as [|c p IH]; intros text.
  - rewrite append_empty_l, (like_only_percent text). split; [|done].
    intros _. by exists "", text.
  - change (String c p +:+ "%") with (String c (p +:+ "%")).
    destruct (Ascii.eqb c percent) eqn:Ec; [|destruct (Ascii.eqb c underscore) eqn:Eu].
    + apply Ascii.eqb_eq in Ec as ->. rewrite like_percent. split.
      * intros (pre & rest & -> & H). apply IH in H as (mid & post & -> & H).
        exists (pre +:+ mid), post. split; [by rewrite append_assoc|].
        apply like_percent. by exists pre, mid.
      * intros (mid & post & -> & H). apply like_percent in H as (pre & rest & -> & H).
        exists pre, (rest +:+ post). split; [by rewrite append_assoc|].
        apply IH. by exists rest, post.
    + simpl like. rewrite Ec, Eu. destruct text as [|x text].
      * split; [done|]. intros (mid & post & E & H). by destruct mid.
      * rewrite IH. split.
        -- intros (mid & post & -> & H). by exists (String x mid), post.
        -- intros (mid & post & E & H). destruct mid as [|y mid]; [done|].
           injection E as -> ->. by exists mid, post.
    + simpl like. rewrite Ec, Eu. destruct text as [|x text].
      * split; [done|]. intros (mid & post & E & H). by destruct mid.
      * rewrite andb_true_iff, IH. split.
        -- intros [Hx (mid & post & -> & H)]. exists (String x mid), post.
           split; [done|]. by rewrite Hx.
        -- intros (mid & post & E & H). destruct mid as [|y mid]; [done|].
           injection E as -> ->. apply andb_true_iff in H as [Hx H].
           split; [done|]. by exists mid, post.
Qed.

(** [text LIKE '%term%']: some part of the text matches [term]. *)
Lemma like_contains term text :
  like ("%" +:+ term +:+ "%") text = true <->
  exists pre mid post, text = pre +:+ mid +:+ post /\ like term mid = true.
Proof.
  change ("%" +:+ term +:+ "%") with (String percent (term +:+ "%")).
  rewrite like_percent. split.
  - intros (pre & rest & -> & H). apply like_trailing_percent in H as (mid & post & -> & H).
    by exists pre, mid, post.
  - intros (pre & mid & post & -> & H). exists pre, (mid +:+ post). split; [done|].
    apply like_trailing_percent. by exists mid, post.
Qed.

(** Every string matches itself, wild cards included. *)
Lemma like_refl s : like s s = true.
Proof.
  induction s as [|c s IH]; [done|].
  destruct (Ascii.eqb c percent) eqn:Ec; [|destruct (Ascii.eqb c underscore) eqn:Eu].
  - apply Ascii.eqb_eq in Ec as ->. apply like_percent. by exists "%", s.
  - simpl. by rewrite Ec, Eu.
  - simpl. rewrite Ec, Eu, IH. by rewrite Ascii.eqb_refl.
Qed.

Lemma like_of_substring term text :
  substring_of term text -> like ("%" +:+ term +:+ "%") text = true.
Proof.
  intros (pre & post & ->). apply like_contains.
  exists pre, term, post. split; [done|apply like_refl].
Qed.

(** Without wild cards, [LIKE] compares up to the case of A..Z. *)
Lemma like_no_wildcard term : forall text,
  no_wildcard term = true -> like term text = same_nocase term text.
Proof.
  induction term as [|c term IH]; intros text H; [by destruct text|].
  simpl in H. apply andb_true_iff in H as [H Hterm].
  apply andb_true_iff in H as [Hp Hu].
  apply negb_true_iff in Hp, Hu. simpl. rewrite Hp, Hu.
  destruct text as [|x text]; [done|]. by rewrite IH.
Qed.

(** The pattern of the empty term matches every text. *)
Lemma like_empty_term text : like ("%" +:+ "" +:+ "%") text = true.
Proof. apply like_of_substring. exists "", text. done. Qed.

Lemma trimEnd_not_blank s : blank s = false -> falsy (trimEnd s) = false.
Proof.
  induction s as [|c s IH]; [done|]. simpl. intros H.
  destruct (trimEnd s) eqn:E; [|done].
  destruct (isWhiteSpace c) eqn:Ec; [|done].
  simpl in H. destruct (blank s); [done|]. by specialize (IH eq_refl).
Qed.

(** The guard of the save handlers fires on white space only. *)
Lemma falsy_trim s : falsy (trim s) = blank s.
Proof.
  unfold trim. induction s as [|c s IH]; [done|]. cbn [trimStart blank].
  destruct (isWhiteSpace c) eqn:Ec; [exact IH|].
  apply trimEnd_not_blank. cbn [blank]. by rewrite Ec.
Qed.

End Like.

(** ** Literal occurrences *)

Section Includes.
Import Text.

Lemma starts_with_spec term : forall text,
  starts_with term text = true <-> exists post, text = term +:+ post.
Proof.
  induction term as [|a term IH]; intros text.
  - split; [|done]. intros _. by exists text.
  - destruct text as [|b text]; simpl.
    + split; [done|]. intros [post E]. done.
    + rewrite andb_true_iff, Ascii.eqb_eq, IH. split.
      * intros [-> [post ->]]. by exists post.
      * intros [post E]. rewrite append_cons in E. injection E as -> ->.
        split; [done|]. by exists post.
Qed.

Lemma includes_spec term text :
  includes term text = true <-> substring_of term text.
Proof.
  unfold substring_of. induction text as [|c text IH].
  - simpl. rewrite orb_false_r, starts_with_spec. split.
    + intros [post E]. by exists "", post.
    + intros (pre & post & E). destruct pre as [|x pre]; [|done].
      by exists post.
  - simpl. rewrite orb_true_iff, starts_with_spec, IH. split.
    + intros [[post E]|(pre & post & ->)].
      * by exists "", post.
      * by exists (String c pre), post.
    + intros (pre & post & E). destruct pre as [|x pre].
      * left. by exists post.
      * right. rewrite append_cons in E. injection E as -> ->. by exists pre, post.
Qed.

End Includes.

(** ** Search and pagination *)

Section Answers.
Import SQLite.

Lemma query_answered term lim off d :
  Gateway.answers term lim d = true ->
  Gateway.query term lim off d = Resolved (Gateway.search term lim off d).
Proof.
  unfold Gateway.answers, Gateway.query, getAllAsync. by intros ->.
Qed.

Lemma query_rejected term lim off d :
  Gateway.answers term lim d = false ->
  Gateway.query term lim off d = Rejected SQLITE_ERROR.
Proof.
  unfold Gateway.answers, Gateway.query, getAllAsync. by intros ->.
Qed.

Lemma answers_short term lim d :
  pattern_ok ("%" +:+ term +:+ "%") = true -> Gateway.answers term lim d = true.
Proof. unfold Gateway.answers. by intros ->. Qed.

Lemma answers_empty lim d : Gateway.answers "" lim d = true.
Proof. by apply answers_short. Qed.

Lemma answers_no_row term lim d :
  lim = 0%nat \/ rows d = ∅ -> Gateway.answers term lim d = true.
Proof.
  unfold Gateway.answers, visits_a_row. intros [->| ->].
  - apply orb_true_r.
  - rewrite bool_decide_eq_true_2 by done. simpl.
    rewrite andb_false_r. apply orb_true_r.
Qed.

Lemma answers_false term lim d :
  Gateway.answers term lim d = false <->
  pattern_ok ("%" +:+ term +:+ "%") = false /\ lim <> 0%nat /\ rows d <> ∅.
Proof.
  unfold Gateway.answers, visits_a_row.
  destruct (pattern_ok _); simpl; [by split; [|intros []]|].
  destruct lim as [|lim]; simpl; [by split; [|intros (_ & ? & _)]|].
  destruct (decide (rows d = ∅)) as [E|E].
  - rewrite bool_decide_eq_true_2 by done. simpl. by split; [|intros (_ & _ & ?)].
  - rewrite bool_decide_eq_false_2 by done. simpl. split; [|done]. intros _.
    split; [done|]. split; [lia|done].
Qed.

End Answers.

Section Search.
Import SQLite Gateway.

Lemma search_all term d :
  search term (size (rows d)) 0 d = where_like ("%" +:+ term +:+ "%") d.
Proof.
  unfold search, select_rows. rewrite drop_0.
  apply take_ge, length_where_like.
Qed.

Lemma search_descending term limit offset d :
  strictly_descending (search term limit offset d).
Proof.
  apply strictly_descending_sublist with (where_like ("%" +:+ term +:+ "%") d);
    [|apply where_like_descending].
  unfold search, select_rows.
  etrans; [apply sublist_take|apply sublist_drop].
Qed.

Lemma elem_of_search_all term d n :
  n ∈ search term (size (rows d)) 0 d <->
  stored d n /\ Text.like ("%" +:+ term +:+ "%") (note n) = true.
Proof. rewrite search_all. apply elem_of_where_like. Qed.

(** With the empty term the query returns the whole table. *)
Lemma length_search_all_empty d :
  length (search "" (size (rows d)) 0 d) = size (rows d).
Proof.
  rewrite search_all. unfold where_like.
  rewrite order_by_id_desc_perm, <- length_scan.
  f_equal. induction (scan d) as [|n l IH]; [done|].
  rewrite filter_cons_True by apply like_empty_term. by rewrite IH.
Qed.

(** The rows of the answer: order, offset, limit, the empty term and
    the three pages of a table of 120 notes. *)
Lemma search_rows_ordered_and_paged term limit offset d :
  let all := search term (size (rows d)) 0 d in
  strictly_descending (search term limit offset d) /\
  (forall n, n ∈ all <->
             stored d n /\ Text.like ("%" +:+ term +:+ "%") (note n) = true) /\
  search term limit offset d = take limit (drop offset all) /\
  (length (search term limit offset d) <= limit)%nat /\
  length (search term limit offset d) = (limit `min` (length all - offset))%nat /\
  (forall n, stored d n -> n ∈ search "" (size (rows d)) 0 d) /\
  (size (rows d) = 120%nat ->
   let page k := search "" 50 (k * 50) d in
   length (page 0%nat) = 50%nat /\
   length (page 1%nat) = 50%nat /\
   length (page 2%nat) = 20%nat /\
   page 0%nat ++ page 1%nat ++ page 2%nat = search "" 120 0 d /\
   NoDup (page 0%nat ++ page 1%nat ++ page 2%nat) /\
   (forall n, stored d n -> n ∈ page 0%nat ++ page 1%nat ++ page 2%nat)).
Proof.
  intros all.
  assert (Hpaged : search term limit offset d = take limit (drop offset all)).
  { unfold all. rewrite search_all. reflexivity. }
  assert (Hempty : forall n, stored d n -> n ∈ search "" (size (rows d)) 0 d).
  { intros n Hn. apply elem_of_search_all. split; [done|apply like_empty_term]. }
  split; [apply search_descending|].
  split; [intros n; apply elem_of_search_all|].
  split; [done|].
  split; [rewrite Hpaged, length_take; lia|].
  split; [by rewrite Hpaged, length_take, length_drop|].
  split; [done|].
  intros Hsize page.
  pose proof (length_search_all_empty d) as Hlen.
  pose proof (search_descending "" (size (rows d)) 0 d) as Hdesc.
  specialize (Hempty).
  rewrite search_all in Hlen, Hdesc.
  assert (Hcat : page 0%nat ++ page 1%nat ++ page 2%nat = search "" 120 0 d).
  { unfold page, search, select_rows.
    set (l := where_like ("%" +:+ "" +:+ "%") d) in *.
    change (2 * 50)%nat with (50 + 50)%nat. change (1 * 50)%nat with 50%nat.
    change (0 * 50)%nat with 0%nat.
    rewrite <- (drop_drop l 50 50), take_take_drop, !drop_0, take_take_drop.
    rewrite !take_ge; [done|lia..]. }
  unfold page in *. unfold search, select_rows in *.
  set (l := where_like ("%" +:+ "" +:+ "%") d) in *.
  rewrite !length_take, !length_drop.
  repeat split; try lia; try done.
  - rewrite Hcat. apply strictly_descending_NoDup.
    apply strictly_descending_sublist with l; [|done].
    etrans; [apply sublist_take|apply sublist_drop].
  - intros n Hn. rewrite Hcat. rewrite <- Hsize. by apply Hempty.
Qed.

Lemma search_no_row term limit offset d :
  limit = 0%nat \/ rows d = ∅ -> search term limit offset d = [].
Proof.
  intros [->|He]; [done|].
  apply elem_of_nil_inv. intros n Hn.
  assert (Hw : n ∈ where_like ("%" +:+ term +:+ "%") d).
  { eapply elem_of_sublist; [exact Hn|].
    unfold search, select_rows. etrans; [apply sublist_take|apply sublist_drop]. }
  apply elem_of_where_like in Hw as [Hs _]. unfold stored in Hs.
  by rewrite He, lookup_empty in Hs.
Qed.

(** C4, as the code has it. For a term whose pattern is within the
    bound of LIKE (50000 bytes), the query is answered: its rows come by
    strictly descending id; asked for the whole table it gives exactly
    the stored rows whose text matches the pattern of the term; otherwise
    it gives that list without its first [offset] rows, cut after [limit]
    rows.  The empty term is always answered and leaves no stored row
    out; a table of 120 notes read by pages of 50 gives 50, 50 and 20
    rows which, put end to end, are the whole listing, without a repeated
    row.  For a longer term the query is rejected and gives no row, unless
    the limit is 0 or the table empty: then it is answered with no
    row. *)
Theorem search_ordered_and_paged term limit offset d :
  (pattern_ok ("%" +:+ term +:+ "%") = false -> limit <> 0%nat -> rows d <> ∅ ->
   query term limit offset d = Rejected SQLITE_ERROR) /\
  (limit = 0%nat \/ rows d = ∅ -> query term limit offset d = Resolved []) /\
  (pattern_ok ("%" +:+ term +:+ "%") = true ->
   exists res all,
     query term limit offset d = Resolved res /\
     query term (size (rows d)) 0 d = Resolved all /\
     strictly_descending res /\
     (forall n, n ∈ all <->
                stored d n /\ Text.like ("%" +:+ term +:+ "%") (note n) = true) /\
     res = take limit (drop offset all) /\
     (length res <= limit)%nat /\
     length res = (limit `min` (length all - offset))%nat) /\
  (exists everything,
     query "" (size (rows d)) 0 d = Resolved everything /\
     forall n, stored d n -> n ∈ everything) /\
  (size (rows d) = 120%nat ->
   exists p0 p1 p2 whole,
     query "" 50 0 d = Resolved p0 /\ query "" 50 50 d = Resolved p1 /\
     query "" 50 100 d = Resolved p2 /\ query "" 120 0 d = Resolved whole /\
     length p0 = 50%nat /\ length p1 = 50%nat /\ length p2 = 20%nat /\
     p0 ++ p1 ++ p2 = whole /\
     NoDup (p0 ++ p1 ++ p2) /\
     (forall n, stored d n -> n ∈ p0 ++ p1 ++ p2)).
Proof.
  destruct (search_rows_ordered_and_paged term limit offset d)
    as (Hdesc & Hall & Hpaged & Hle & Hlen & Hempty & Hpages).
  split; [|split; [|split; [|split]]].
  - intros Hp Hl Hd. by apply query_rejected, answers_false.
  - intros H. rewrite query_answered by by apply answers_no_row.
    by rewrite search_no_row.
  - intros Ha. eexists _, _.
    split; [by apply query_answered, answers_short|].
    split; [by apply query_answered, answers_short|]. done.
  - eexists. split; [apply query_answered, answers_empty|]. done.
  - intros Hsize. destruct (Hpages Hsize) as (H0 & H1 & H2 & Hcat & Hnd & Hin).
    eexists _, _, _, _.
    split; [apply query_answered, answers_empty|].
    split; [apply (query_answered "" 50 (1 * 50)), answers_empty|].
    split; [apply (query_answered "" 50 (2 * 50)), answers_empty|].
    split; [apply query_answered, answers_empty|]. done.
Qed.

(** C4, as stated, fails: for a term of 49999 letters the query is
    rejected, where the claim has it return rows. *)
Lemma long_term_is_rejected :
  pattern_ok ("%" +:+ Sample.long_term +:+ "%") = false /\
  query Sample.long_term 50 0 Sample.fruits = Rejected SQLITE_ERROR /\
  ~ (exists res, query Sample.long_term 50 0 Sample.fruits = Resolved res /\
                 (length res <= 50)%nat).
Proof.
  assert (Hp : pattern_ok ("%" +:+ Sample.long_term +:+ "%") = false)
    by (vm_compute; reflexivity).
  assert (Ha : answers Sample.long_term 50 Sample.fruits = false)
    by (vm_compute; reflexivity).
  pose proof (query_rejected Sample.long_term 50 0 Sample.fruits Ha) as Hq.
  split; [exact Hp|]. split; [exact Hq|].
  intros (res & Hres & _). rewrite Hq in Hres. discriminate Hres.
Qed.

Lemma search_ordered_and_paged_witness :
  let d := Sample.filled 120 in
  size (rows d) = 120%nat /\
  pattern_ok ("%" +:+ "nota" +:+ "%") = true /\
  pattern_ok ("%" +:+ Sample.long_term +:+ "%") = false /\
  rows d <> ∅ /\
  query Sample.long_term 50 0 d = Rejected SQLITE_ERROR /\
  query Sample.long_term 0 0 d = Resolved [] /\
  (exists res, query "nota" 50 100 d = Resolved res /\ length res = 20%nat) /\
  exists p0 p1 p2 whole,
    query "" 50 0 d = Resolved p0 /\ query "" 50 50 d = Resolved p1 /\
    query "" 50 100 d = Resolved p2 /\ query "" 120 0 d = Resolved whole /\
    length p2 = 20%nat /\ p0 ++ p1 ++ p2 = whole.
Proof.
  intros d.
  assert (H : size (rows d) = 120%nat) by (vm_compute; reflexivity).
  assert (Ha : pattern_ok ("%" +:+ "nota" +:+ "%") = true) by reflexivity.
  assert (Hne : rows d <> ∅).
  { intros He. rewrite He, map_size_empty in H. discriminate H. }
  destruct (search_ordered_and_paged "nota" 50 100 d) as (_ & _ & Hans & _ & Hpages).
  destruct (Hans Ha) as (res & all & Hres & _).
  destruct (Hpages H) as (p0 & p1 & p2 & whole & E0 & E1 & E2 & Ew & _ & _ & L2 & Hcat & _).
  assert (L : length res = 20%nat).
  { pose proof (eq_trans (eq_sym
      (query_answered "nota" 50 100 d (answers_short "nota" 50 d Ha))) Hres) as E.
    pose proof (f_equal (fun s => match s with
                                  | Resolved a => length a
                                  | Rejected _ => 0%nat
                                  end) E) as E'.
    cbv beta iota in E'. rewrite <- E'. vm_compute. reflexivity. }
  assert (Hnota : exists res, query "nota" 50 100 d = Resolved res /\ length res = 20%nat)
    by (exists res; split; [exact Hres|exact L]).
  assert (Hp : exists p0 p1 p2 whole,
    query "" 50 0 d = Resolved p0 /\ query "" 50 50 d = Resolved p1 /\
    query "" 50 100 d = Resolved p2 /\ query "" 120 0 d = Resolved whole /\
    length p2 = 20%nat /\ p0 ++ p1 ++ p2 = whole).
  { exists p0, p1, p2, whole.
    split; [exact E0|]. split; [exact E1|]. split; [exact E2|]. split; [exact Ew|].
    split; [exact L2|exact Hcat]. }
  clear - H Ha Hne Hnota Hp.
  assert (Hl : pattern_ok ("%" +:+ Sample.long_term +:+ "%") = false)
    by (vm_compute; reflexivity).
  assert (H50 : 50%nat <> 0%nat) by discriminate.
  exact (conj H (conj Ha (conj Hl (conj Hne
    (conj (proj1 (search_ordered_and_paged Sample.long_term 50 0 d) Hl H50 Hne)
    (conj (proj1 (proj2 (search_ordered_and_paged Sample.long_term 0 0 d))
             (or_introl eq_refl))
       (conj Hnota Hp))))))).
Defined.

End Search.

(** ** The handlers, step by step *)

Section Handlers.
Import SQLite App.

Ltac run_handler :=
  unfold loadNotes, addNote, updateNote, deleteNote, openEditModal, openAddModal,
    setNotes, setSearch, setModalVisible, setModalDeleteVisible, setCurrentNote,
    setEditingNoteId, setDeleteNoteId, setPage, setPage_with, set_cells,
    db_runAsync, read_db, mbind, M_bind, mret, M_ret;
  cbn -[runAsync getAllAsync Text.trim].

Lemma loadNotes_open r w d :
  db w = Some d -> Gateway.answers (search r) limit d = true ->
  loadNotes r w = Returned tt {| db := Some d; cells := put_notes (loaded r d) (cells w) |}.
Proof.
  destruct w as [o c]. simpl. intros -> Ha.
  unfold loadNotes, db_getAllAsync, read_db, mbind, M_bind. simpl.
  fold (Gateway.query (search r) limit (page r * limit) d).
  by rewrite (query_answered _ _ _ _ Ha).
Qed.

Lemma loadNotes_rejected r w d :
  db w = Some d -> Gateway.answers (search r) limit d = false ->
  loadNotes r w = Thrown (SqlError SQLITE_ERROR) w.
Proof.
  destruct w as [o c]. simpl. intros -> Ha.
  unfold loadNotes, db_getAllAsync, read_db, mbind, M_bind. simpl.
  fold (Gateway.query (search r) limit (page r * limit) d).
  by rewrite (query_rejected _ _ _ _ Ha).
Qed.

Lemma reload_answered r w d :
  db w = Some d -> Gateway.answers (search r) limit d = true ->
  reload r w = {| db := Some d; cells := put_notes (loaded r d) (cells w) |}.
Proof. intros Hd Ha. unfold reload. by rewrite (loadNotes_open r w d Hd Ha). Qed.

Lemma reload_rejected r w d :
  db w = Some d -> Gateway.answers (search r) limit d = false -> reload r w = w.
Proof. intros Hd Ha. unfold reload. by rewrite (loadNotes_rejected r w d Hd Ha). Qed.

Lemma reload_null r w : db w = None -> reload r w = w.
Proof. destruct w as [o c]. simpl. intros ->. reflexivity. Qed.

Lemma reload_db r w : db (reload r w) = db w.
Proof.
  destruct (db w) as [d|] eqn:Hd; [|by rewrite reload_null].
  destruct (Gateway.answers (search r) limit d) eqn:Ha.
  - by rewrite (reload_answered r w d Hd Ha).
  - by rewrite (reload_rejected r w d Hd Ha).
Qed.

Lemma loadNotes_null r w : db w = None -> loadNotes r w = Returned tt w.
Proof. destruct w as [o c]. simpl. intros ->. reflexivity. Qed.

Lemma addNote_guard r w :
  Text.blank (currentNote r) = true \/ db w = None -> addNote r w = Returned tt w.
Proof.
  destruct w as [o c]. run_handler. rewrite falsy_trim.
  intros [->| ->]; [done|]. by rewrite orb_true_r.
Qed.

Lemma addNote_resolved r w d d' :
  db w = Some d -> Text.blank (currentNote r) = false ->
  Gateway.create (currentNote r) d = Resolved d' ->
  addNote r w =
  Returned tt
    (reload r {| db := Some d';
                 cells := put_page 0 (put_modalVisible false
                            (put_currentNote "" (cells w))) |}).
Proof.
  destruct w as [o c]. simpl. intros -> Hb Hc. unfold Gateway.create in Hc.
  run_handler. rewrite falsy_trim, Hb. cbn -[runAsync getAllAsync].
  by rewrite Hc.
Qed.

Lemma addNote_rejected r w d e :
  db w = Some d -> Text.blank (currentNote r) = false ->
  Gateway.create (currentNote r) d = Rejected e ->
  addNote r w = Thrown (SqlError e) w.
Proof.
  destruct w as [o c]. simpl. intros -> Hb Hc. unfold Gateway.create in Hc.
  run_handler. rewrite falsy_trim, Hb. cbn -[runAsync getAllAsync].
  by rewrite Hc.
Qed.

Lemma updateNote_guard r w :
  Text.blank (currentNote r) = true \/ editingNoteId r = None \/ db w = None ->
  updateNote r w = Returned tt w.
Proof.
  destruct w as [o c]. run_handler. rewrite falsy_trim.
  intros [->|[->| ->]]; [by destruct (editingNoteId r)|done|].
  rewrite orb_true_r. by destruct (editingNoteId r).
Qed.

Lemma updateNote_resolved r w d i :
  db w = Some d -> Text.blank (currentNote r) = false -> editingNoteId r = Some i ->
  exists d', Gateway.update i (currentNote r) d = Resolved d' /\
  updateNote r w =
  Returned tt
    (reload r {| db := Some d';
                 cells := put_page 0 (put_editingNoteId None
                            (put_currentNote "" (put_modalVisible false (cells w)))) |}).
Proof.
  destruct w as [o c]. simpl. intros -> Hb Hi. eexists. split; [reflexivity|].
  run_handler. by rewrite falsy_trim, Hb, Hi.
Qed.

Lemma deleteNote_guard r w :
  deleteNoteId r = None \/ db w = None -> deleteNote r w = Returned tt w.
Proof.
  destruct w as [o c]. run_handler.
  intros [->| ->]; [done|]. by destruct (deleteNoteId r).
Qed.

Lemma deleteNote_resolved r w d i :
  db w = Some d -> deleteNoteId r = Some i ->
  exists d', Gateway.delete i d = Resolved d' /\
  deleteNote r w =
  Returned tt
    (reload r {| db := Some d';
                 cells := put_page 0 (put_deleteNoteId None
                            (put_modalDeleteVisible false (cells w))) |}).
Proof.
  destruct w as [o c]. simpl. intros -> Hi. eexists. split; [reflexivity|].
  run_handler. by rewrite Hi.
Qed.

Lemma onSave_update r i :
  editingNoteId r = Some i -> i <> 0 -> onSave r = updateNote r.
Proof.
  intros Hi Hz. unfold onSave, truthy_id. rewrite Hi.
  destruct (i =? 0) eqn:E; [|done]. apply Z.eqb_eq in E. done.
Qed.

Lemma onSave_add r :
  editingNoteId r = None \/ editingNoteId r = Some 0 -> onSave r = addNote r.
Proof. intros [H|H]; unfold onSave; by rewrite H. Qed.

End Handlers.

(** ** Create, update and delete *)

Section Mutations.
Import SQLite Gateway.

Lemma update_resolved i text d :
  update i text d = Resolved {| rows := alter (fun _ => text) i (rows d); seq := seq d |}.
Proof. reflexivity. Qed.

Lemma delete_resolved i d :
  delete i d = Resolved {| rows := base.delete i (rows d); seq := seq d |}.
Proof. reflexivity. Qed.

Lemma create_resolved text d :
  high_water d < MAX_ROWID ->
  create text d =
  Resolved {| rows := <[next_rowid d := text]> (rows d); seq := next_rowid d |}.
Proof.
  intros H. unfold create, runAsync.
  destruct (MAX_ROWID <=? high_water d) eqn:E; [|done].
  apply Z.leb_le in E. lia.
Qed.

Lemma update_absent i text d : rows d !! i = None -> update i text d = Resolved d.
Proof.
  intros H. rewrite update_resolved. f_equal. destruct d as [m s]; simpl in *.
  f_equal. by apply alter_id'.
Qed.

Lemma delete_absent i d : rows d !! i = None -> delete i d = Resolved d.
Proof.
  intros H. rewrite delete_resolved. f_equal. destruct d as [m s]; simpl in *.
  f_equal. by apply delete_id.
Qed.

(** C7. On an id that is not in the table, [update] and [delete]
    resolve and give back the very same table; on an id that is, they
    resolve, [update] gives that row the new text, [delete] removes it,
    and every other row and the id counter are as before.  The handlers
    do just that to the table: [updateNote], on a draft that does not
    trim to the empty string, and [deleteNote] return without an
    exception, and the table after them is the one [update] of the
    draft, and [delete], give for the id they hold, absent or present. *)
Theorem update_delete_touch_one_row i text d :
  (rows d !! i = None ->
   update i text d = Resolved d /\ delete i d = Resolved d) /\
  (is_Some (rows d !! i) ->
   exists du dd,
     update i text d = Resolved du /\ delete i d = Resolved dd /\
     rows du !! i = Some text /\ rows dd !! i = None /\
     (forall j, j <> i -> rows du !! j = rows d !! j /\ rows dd !! j = rows d !! j) /\
     seq du = seq d /\ seq dd = seq d) /\
  (forall w, App.db w = Some d ->
     (App.editingNoteId (App.cells w) = Some i ->
      App.currentNote (App.cells w) = text -> Text.trim text <> "" ->
      exists w',
        App.updateNote (App.cells w) w = App.Returned tt w' /\
        App.db w' =
          Some {| rows := alter (fun _ => text) i (rows d); seq := seq d |} /\
        update i text d =
          Resolved {| rows := alter (fun _ => text) i (rows d); seq := seq d |}) /\
     (App.deleteNoteId (App.cells w) = Some i ->
      exists w',
        App.deleteNote (App.cells w) w = App.Returned tt w' /\
        App.db w' = Some {| rows := base.delete i (rows d); seq := seq d |} /\
        delete i d = Resolved {| rows := base.delete i (rows d); seq := seq d |})).
Proof.
  split; [|split].
  - intros H. split; [by apply update_absent|by apply delete_absent].
  - intros [t Ht]. eexists _, _.
    split; [apply update_resolved|]. split; [apply delete_resolved|]. simpl.
    split; [by rewrite lookup_alter_eq, Ht|].
    split; [apply lookup_delete_eq|].
    split; [|done]. intros j Hj.
    split; [by apply lookup_alter_ne|by apply lookup_delete_ne].
  - intros w Hdb. split.
    + intros Hid Htext Hb. subst text.
      assert (Hb' : Text.blank (App.currentNote (App.cells w)) = false).
      { rewrite <- falsy_trim. by destruct (Text.trim _). }
      destruct (updateNote_resolved _ w d i Hdb Hb' Hid) as (d' & Hd' & ->).
      rewrite update_resolved in Hd'. injection Hd' as <-.
      eexists. split; [reflexivity|]. by rewrite reload_db.
    + intros Hid.
      destruct (deleteNote_resolved _ w d i Hdb Hid) as (d' & Hd' & ->).
      rewrite delete_resolved in Hd'. injection Hd' as <-.
      eexists. split; [reflexivity|]. by rewrite reload_db.
Qed.

Lemma update_delete_touch_one_row_witness :
  let d := Sample.fruits in
  let w := App.mkWorld (Some d)
             (App.mkState [] "" true true "cherry" (Some 1) (Some 1) 0%nat) in
  rows d !! 7 = None /\ is_Some (rows d !! 1) /\
  update 7 "cherry" d = Resolved d /\ delete 7 d = Resolved d /\
  (exists du dd,
    update 1 "cherry" d = Resolved du /\ delete 1 d = Resolved dd /\
    rows du !! 1 = Some "cherry" /\ rows dd !! 1 = None) /\
  Text.trim "cherry" <> "" /\
  (exists w',
     App.updateNote (App.cells w) w = App.Returned tt w' /\
     App.db w' = Some {| rows := alter (fun _ => "cherry") 1 (rows d); seq := seq d |} /\
     update 1 "cherry" d =
       Resolved {| rows := alter (fun _ => "cherry") 1 (rows d); seq := seq d |}) /\
  (exists w',
     App.deleteNote (App.cells w) w = App.Returned tt w' /\
     App.db w' = Some {| rows := base.delete 1 (rows d); seq := seq d |} /\
     delete 1 d = Resolved {| rows := base.delete 1 (rows d); seq := seq d |}).
Proof.
  intros d w.
  assert (H7 : rows d !! 7 = None) by (vm_compute; reflexivity).
  assert (H1 : is_Some (rows d !! 1)) by (exists "apple"; vm_compute; reflexivity).
  assert (Ht : Text.trim "cherry" <> "") by (vm_compute; discriminate).
  destruct (update_delete_touch_one_row 7 "cherry" d) as (Habsent & _ & _).
  destruct (update_delete_touch_one_row 1 "cherry" d) as (_ & Hpresent & Hhandlers).
  destruct (Habsent H7) as (Hu & Hd).
  destruct (Hpresent H1) as (du & dd & Hu1 & Hd1 & Hru & Hrd & _).
  destruct (Hhandlers w eq_refl) as (Hupd & Hdel).
  split; [exact H7|]. split; [exact H1|]. split; [exact Hu|]. split; [exact Hd|].
  split.
  { exists du, dd. split; [exact Hu1|]. split; [exact Hd1|]. split; [exact Hru|exact Hrd]. }
  split; [exact Ht|].
  split; [exact (Hupd eq_refl eq_refl Ht)|exact (Hdel eq_refl)].
Defined.

End Mutations.

(** ** Sequences of operations *)

Section Journal.
Import SQLite Gateway.

Lemma snoc_split {A} (l : list A) x l1 y l2 :
  l ++ [x] = l1 ++ y :: l2 ->
  (l2 = [] /\ l = l1 /\ x = y) \/ (exists l2', l2 = l2' ++ [x] /\ l = l1 ++ y :: l2').
Proof.
  destruct l2 as [|z l2 _] using rev_ind; intros E.
  - left. apply app_inj_tail in E as [-> ->]. done.
  - right. rewrite app_comm_cons, app_assoc in E.
    apply app_inj_tail in E as [-> ->]. by exists l2.
Qed.

Lemma last_text_snoc i t0 l e :
  last_text i t0 (l ++ [e]) =
  match e with
  | Updated j text => if decide (j = i) then text else last_text i t0 l
  | _ => last_text i t0 l
  end.
Proof. unfold last_text. by rewrite foldl_snoc. Qed.

(** A note survives a journal with one more entry when it was just
    created by that entry, or survived before and the entry is not its
    deletion; an update of it gives it its text. *)
Lemma survives_snoc journal e n :
  survives (journal ++ [e]) n <->
  e = Created (id n) (note n) \/
  (e <> Deleted (id n) /\
   exists t, survives journal (mkNote (id n) t) /\
             note n = match e with
                      | Updated j text => if decide (j = id n) then text else t
                      | _ => t
                      end).
Proof.
  split.
  - intros (before & t0 & after & E & Hdel & Htext).
    apply snoc_split in E as [(-> & -> & ->)|(after' & -> & ->)].
    + left. by rewrite Htext.
    + right. apply not_elem_of_app in Hdel as [Hdel He].
      rewrite list_elem_of_singleton in He. split; [congruence|].
      exists (last_text (id n) t0 after'). rewrite last_text_snoc in Htext.
      split; [by exists before, t0, after'|done].
  - intros [->|(Hne & t & (before & t0 & after & -> & Hdel & Htext) & Hn)].
    + exists journal, (note n), []. split; [done|]. split; [apply not_elem_of_nil|done].
    + simpl in *. exists before, t0, (after ++ [e]).
      split; [by rewrite <- app_assoc|]. split.
      * apply not_elem_of_app. split; [done|].
        rewrite list_elem_of_singleton. congruence.
      * rewrite last_text_snoc, <- Htext. done.
Qed.

Lemma survives_created journal n :
  survives journal n -> exists t0, Created (id n) t0 ∈ journal.
Proof.
  intros (before & t0 & after & -> & _). exists t0.
  apply elem_of_app. right. apply elem_of_cons. by left.
Qed.

Lemma execute_snoc ops o d :
  execute (ops ++ [o]) d =
  ((apply_op (execute ops d).1 o).1, (execute ops d).2 ++ (apply_op (execute ops d).1 o).2).
Proof. unfold execute. by rewrite foldl_snoc. Qed.

Lemma elem_of_created_ids journal i :
  i ∈ created_ids journal <-> exists t, Created i t ∈ journal.
Proof.
  unfold created_ids. rewrite list_elem_of_omap. split.
  - intros ([j t|j t|j] & Hin & E); try done. injection E as ->. by exists t.
  - intros [t Hin]. by exists (Created i t).
Qed.

Lemma created_ids_snoc journal e :
  created_ids (journal ++ [e]) =
  created_ids journal ++ match e with Created i _ => [i] | _ => [] end.
Proof. unfold created_ids. rewrite omap_app. by destruct e. Qed.

Lemma agree_empty : agree empty_db [].
Proof.
  split; [|split].
  - intros n. split.
    + unfold stored. simpl. by rewrite lookup_empty.
    + intros ([|??] & ? & ? & ? & _); done.
  - intros i t H. by apply elem_of_nil in H.
  - constructor.
Qed.

Lemma agree_step d journal o :
  agree d journal -> agree (apply_op d o).1 (journal ++ (apply_op d o).2).
Proof.
  intros (Hrows & Hseq & Hids). destruct o as [text|i text|i]; simpl.
  - (* create *)
    unfold create, runAsync.
    destruct (MAX_ROWID <=? high_water d); simpl; [by rewrite app_nil_r|].
    pose proof (high_water_seq d) as Hhw.
    assert (Hnew : forall t, Created (next_rowid d) t ∉ journal).
    { intros t Hin. apply Hseq in Hin. unfold next_rowid in Hin. lia. }
    split; [|split].
    + intros [k t]. rewrite survives_snoc. unfold stored. simpl.
      destruct (decide (k = next_rowid d)) as [->|E].
      * rewrite lookup_insert_eq. split.
        -- intros [= <-]. by left.
        -- intros [[= <-]|(_ & t' & Hs & _)]; [done|].
           apply survives_created in Hs as [t0 Hs]. simpl in Hs.
           by apply Hnew in Hs.
      * rewrite lookup_insert_ne by done. split.
        -- intros H. right. split; [done|]. exists t. split; [|done].
           by apply Hrows.
        -- intros [[= E' _]|(_ & t' & Hs & ->)]; [done|]. by apply Hrows in Hs.
    + intros i t [Hin|Hin%list_elem_of_singleton]%elem_of_app; simpl.
      * apply Hseq in Hin. unfold next_rowid. lia.
      * injection Hin as -> _. done.
    + rewrite created_ids_snoc. apply NoDup_app. split; [done|]. split.
      * intros i [t Hin]%elem_of_created_ids Hi%list_elem_of_singleton.
        subst i. by apply Hnew in Hin.
      * apply NoDup_singleton.
  - (* update *)
    split; [|split].
    + intros [k t]. rewrite survives_snoc. unfold stored. simpl.
      destruct (decide (i = k)) as [->|E].
      * rewrite lookup_alter_eq. split.
        -- intros H. right. split; [done|].
           destruct (rows d !! k) as [t'|] eqn:Ht; [|done].
           injection H as <-. exists t'. split; [by apply Hrows|done].
        -- intros [[=]|(_ & t' & Hs & ->)]. apply Hrows in Hs.
           unfold stored in Hs. simpl in Hs. by rewrite Hs.
      * rewrite lookup_alter_ne by done. split.
        -- intros H. right. split; [done|]. exists t. split; [|done].
           by apply Hrows.
        -- intros [[=]|(_ & t' & Hs & ->)]. by apply Hrows in Hs.
    + intros j t [Hin|Hin%list_elem_of_singleton]%elem_of_app; simpl; [|done].
      by apply Hseq in Hin.
    + rewrite created_ids_snoc. by rewrite app_nil_r.
  - (* delete *)
    split; [|split].
    + intros [k t]. rewrite survives_snoc. unfold stored. simpl.
      destruct (decide (i = k)) as [->|E].
      * rewrite lookup_delete_eq. split; [done|].
        intros [[=]|(Hne & _)]. done.
      * rewrite lookup_delete_ne by done. split.
        -- intros H. right. split; [congruence|]. exists t. split; [|done].
           by apply Hrows.
        -- intros [[=]|(_ & t' & Hs & ->)]. by apply Hrows in Hs.
    + intros j t [Hin|Hin%list_elem_of_singleton]%elem_of_app; simpl; [|done].
      by apply Hseq in Hin.
    + rewrite created_ids_snoc. by rewrite app_nil_r.
Qed.

Lemma agree_execute ops :
  agree (execute ops empty_db).1 (execute ops empty_db).2.
Proof.
  induction ops as [|o ops IH] using rev_ind; [apply agree_empty|].
  rewrite execute_snoc. simpl. by apply agree_step.
Qed.



End Journal.

(** ** What the search term matches *)

Section Matching.
Import SQLite Gateway.

(** C5, as the code has it. A term whose pattern [%term%] is within
    SQLite's bound on LIKE patterns is answered, and asked for the whole
    table the answer holds a stored note exactly when some part of its
    text matches [term] as a LIKE pattern: [%] in the term stands for
    any run of characters, [_] for any one character, and a letter A..Z
    for either case.  A note whose text contains such a term character
    for character is therefore returned, and a term without [%] and [_]
    matches the parts of the text equal to it up to the case of A..Z.
    With a longer term the query is rejected and no note is returned,
    whenever the limit is not 0 and the table has a row. *)
Theorem search_matches_like_pattern term d n :
  (pattern_ok ("%" +:+ term +:+ "%") = true -> exists res,
     query term (size (rows d)) 0 d = Resolved res /\
     (n ∈ res <->
      stored d n /\
      exists pre mid post, note n = pre +:+ mid +:+ post /\ Text.like term mid = true) /\
     (stored d n -> Text.substring_of term (note n) -> n ∈ res)) /\
  (pattern_ok ("%" +:+ term +:+ "%") = false ->
   forall limit offset, limit <> 0%nat -> rows d <> ∅ ->
     query term limit offset d = Rejected SQLITE_ERROR) /\
  (Text.no_wildcard term = true ->
   forall mid, Text.like term mid = Text.same_nocase term mid).
Proof.
  split; [|split].
  - intros Ha. exists (search term (size (rows d)) 0 d).
    split; [by apply query_answered, answers_short|]. split.
    + rewrite elem_of_search_all, like_contains. done.
    + intros Hn Hsub. apply elem_of_search_all. split; [done|].
      by apply like_of_substring.
  - intros Ha limit offset Hl Hd. by apply query_rejected, answers_false.
  - intros H mid. by apply like_no_wildcard.
Qed.

(** C5, as stated, fails: "hello" is found in "Hello", in which it does
    not occur; so is "a_p_e" in "apple". *)
Lemma search_is_not_literal :
  (exists res, query "hello" 50 0 Sample.greeting = Resolved res /\
     ~ (mkNote 1 "Hello" ∈ res <->
        stored Sample.greeting (mkNote 1 "Hello") /\
        Text.substring_of "hello" "Hello")) /\
  (exists res, query "a_p_e" 50 0 Sample.fruits = Resolved res /\
     ~ (mkNote 1 "apple" ∈ res <->
        stored Sample.fruits (mkNote 1 "apple") /\
        Text.substring_of "a_p_e" "apple")).
Proof.
  split.
  - exists (search "hello" 50 0 Sample.greeting).
    split; [by apply query_answered|]. intros [H _].
    assert (Hin : mkNote 1 "Hello" ∈ search "hello" 50 0 Sample.greeting).
    { vm_compute. apply list_elem_of_here. }
    apply H in Hin as [_ Hsub]. apply includes_spec in Hsub. done.
  - exists (search "a_p_e" 50 0 Sample.fruits).
    split; [by apply query_answered|]. intros [H _].
    assert (Hin : mkNote 1 "apple" ∈ search "a_p_e" 50 0 Sample.fruits).
    { vm_compute. apply list_elem_of_here. }
    apply H in Hin as [_ Hsub]. apply includes_spec in Hsub. done.
Qed.

Lemma search_matches_like_pattern_witness :
  pattern_ok ("%" +:+ "nan" +:+ "%") = true /\
  stored Sample.fruits (mkNote 2 "banana") /\
  Text.substring_of "nan" "banana" /\
  Text.no_wildcard "nan" = true /\
  (exists res,
     query "nan" (size (rows Sample.fruits)) 0 Sample.fruits = Resolved res /\
     mkNote 2 "banana" ∈ res) /\
  Text.like "nan" "NaN" = Text.same_nocase "nan" "NaN" /\
  pattern_ok ("%" +:+ Sample.long_term +:+ "%") = false /\
  rows Sample.fruits <> ∅ /\
  query Sample.long_term 50 0 Sample.fruits = Rejected SQLITE_ERROR.
Proof.
  assert (H0 : pattern_ok ("%" +:+ "nan" +:+ "%") = true) by reflexivity.
  assert (H1 : stored Sample.fruits (mkNote 2 "banana")) by (vm_compute; reflexivity).
  assert (H2 : Text.substring_of "nan" "banana") by (by exists "ba", "a").
  assert (H3 : Text.no_wildcard "nan" = true) by reflexivity.
  destruct (search_matches_like_pattern "nan" Sample.fruits (mkNote 2 "banana"))
    as (Hans & _ & Hcase).
  destruct (Hans H0) as (res & Hq & _ & Hsub).
  assert (Hres : exists res,
    query "nan" (size (rows Sample.fruits)) 0 Sample.fruits = Resolved res /\
    mkNote 2 "banana" ∈ res) by (exists res; split; [exact Hq|exact (Hsub H1 H2)]).
  pose proof (Hcase H3 "NaN") as Hnan.
  clear - H0 H1 H2 H3 Hres Hnan.
  assert (Hl : pattern_ok ("%" +:+ Sample.long_term +:+ "%") = false)
    by (vm_compute; reflexivity).
  assert (Hne : rows Sample.fruits <> ∅)
    by (apply (bool_decide_unpack _); vm_compute; exact I).
  assert (H50 : 50%nat <> 0%nat) by discriminate.
  exact (conj H0 (conj H1 (conj H2 (conj H3 (conj Hres (conj Hnan (conj Hl (conj Hne
    (proj1 (proj2 (search_matches_like_pattern Sample.long_term Sample.fruits
                     (mkNote 2 "banana"))) Hl 50%nat 0%nat H50 Hne))))))))).
Defined.

End Matching.

(** ** Scrolling and typing in the search field *)

Section Paging.
Import SQLite App.

(** The end of the list: the page counter goes up, and [loadNotes] runs
    with the page, the term and the notes of the render that is on
    screen. *)
Lemma step_EndReached d c :
  step {| db := Some d; cells := c |} EndReached =
  reload c {| db := Some d; cells := put_page (page c + 1) c |}.
Proof. reflexivity. Qed.

(** A new search term: the term and page 0 are written, and [loadNotes]
    runs with the term, the page and the notes of the render that is on
    screen. *)
Lemma step_SearchChangeText d c text :
  step {| db := Some d; cells := c |} (SearchChangeText text) =
  reload c {| db := Some d; cells := put_page 0 (put_search text c) |}.
Proof. reflexivity. Qed.

(** The two ends of a reload that follows setters which leave [notes]
    alone: the list [loadNotes] computes, or the list as it was. *)
Lemma reload_cases r d c :
  (Gateway.answers (search r) limit d = true /\
   reload r {| db := Some d; cells := c |}
   = {| db := Some d; cells := put_notes (loaded r d) c |}) \/
  (Gateway.answers (search r) limit d = false /\
   reload r {| db := Some d; cells := c |} = {| db := Some d; cells := c |}).
Proof.
  destruct (Gateway.answers (search r) limit d) eqn:Ha; [left|right]; (split; [done|]).
  - by apply reload_answered.
  - by apply (reload_rejected r _ d).
Qed.

(** C1, what the code does. At the end of the list the page counter
    goes up by one, and the query is sent for the page that was on screen,
    with offset [page * 50] and not [(page + 1) * 50]; its rows replace
    the list when that page is 0 and are appended otherwise.  At a table
    of 51 notes, just after the first load (page 0, the 50 newest notes on
    screen), the counter becomes 1 and the same 50 notes replace the list:
    note 1, the only row of page 1, is not shown, where fetching page 1
    and appending it would have given 51 notes. *)
Theorem end_reached_fetches_page_on_screen :
  (forall d c,
     let w' := step {| db := Some d; cells := c |} EndReached in
     page (cells w') = (page c + 1)%nat /\
     search (cells w') = search c /\
     (Gateway.answers (search c) limit d = true ->
      notes (cells w') =
        if decide (page c = 0%nat)
        then Gateway.search (search c) limit (page c * limit) d
        else notes c ++ Gateway.search (search c) limit (page c * limit) d) /\
     (Gateway.answers (search c) limit d = false -> notes (cells w') = notes c)) /\
  let d := Sample.filled 51 in
  let w := mount (Some d) in
  let w' := step w EndReached in
  page (cells w) = 0%nat /\
  notes (cells w) = Gateway.search "" limit 0 d /\
  page (cells w') = 1%nat /\
  notes (cells w') = Gateway.search "" limit (0 * limit) d /\
  length (notes (cells w')) = 50%nat /\
  Gateway.search "" limit (1 * limit) d = [mkNote 1 "nota"] /\
  (mkNote 1 "nota" ∉ notes (cells w')) /\
  notes (cells w') <> notes (cells w) ++ Gateway.search "" limit (1 * limit) d.
Proof.
  split.
  { intros d c w'. subst w'. rewrite (step_EndReached d c).
    by destruct (reload_cases c d (put_page (page c + 1) c)) as [[Ha ->]|[Ha ->]];
      rewrite Ha. }
  intros d w w'.
  repeat split; try (vm_compute; reflexivity).
  - apply (bool_decide_unpack _). vm_compute. exact I.
  - apply (bool_decide_unpack _). vm_compute. exact I.
Qed.

(** C2, what the code does. A change of the search field writes the new
    term and page 0, and the query is sent for the term and the page that
    were on screen; its rows replace the list when that page was 0 and
    are appended to the notes on screen otherwise.  At a table of two
    notes, "apple" and "banana", just after the first load, typing "b"
    leaves both notes on screen, where the search for "b" has one; with
    the page counter at 1 the same keystroke appends page 1 of the old
    term to the notes on screen instead of replacing them. *)
Theorem search_change_queries_term_on_screen :
  (forall d c text,
     let w' := step {| db := Some d; cells := c |} (SearchChangeText text) in
     search (cells w') = text /\ page (cells w') = 0%nat /\
     (Gateway.answers (search c) limit d = true ->
      notes (cells w') =
        if decide (page c = 0%nat)
        then Gateway.search (search c) limit (page c * limit) d
        else notes c ++ Gateway.search (search c) limit (page c * limit) d) /\
     (Gateway.answers (search c) limit d = false -> notes (cells w') = notes c)) /\
  let d := Sample.fruits in
  let w := mount (Some d) in
  let w' := step w (SearchChangeText "b") in
  let v := step w EndReached in
  let v' := step v (SearchChangeText "b") in
  search (cells w') = "b" /\ page (cells w') = 0%nat /\
  notes (cells w') = Gateway.search "" limit 0 d /\
  notes (cells w') = [mkNote 2 "banana"; mkNote 1 "apple"] /\
  Gateway.search "b" limit 0 d = [mkNote 2 "banana"] /\
  page (cells v) = 1%nat /\
  search (cells v') = "b" /\ page (cells v') = 0%nat /\
  notes (cells v') = notes (cells v) ++ Gateway.search "" limit (1 * limit) d /\
  notes (cells v') = [mkNote 2 "banana"; mkNote 1 "apple"].
Proof.
  split.
  { intros d c text w'. subst w'. rewrite (step_SearchChangeText d c text).
    by destruct (reload_cases c d (put_page 0 (put_search text c)))
      as [[Ha ->]|[Ha ->]]; rewrite Ha. }
  repeat split; vm_compute; reflexivity.
Qed.

End Paging.

(** ** Saving and deleting from the dialogs *)

Section Dialogs.
Import SQLite App.

Lemma falsy_empty s : Text.falsy s = true <-> s = "".
Proof. by destruct s. Qed.

Lemma blank_trim s : Text.blank s = true <-> Text.trim s = "".
Proof. by rewrite <- falsy_trim, falsy_empty. Qed.

Lemma not_blank_trim s : Text.blank s = false <-> Text.trim s <> "".
Proof. rewrite <- blank_trim. by destruct (Text.blank s). Qed.

Lemma loadNotes_db r w : db (world_of (loadNotes r w)) = db w.
Proof.
  apply reload_db.
Qed.

(** What an event can do to the table: nothing, an insert or an update
    of a text that is not blank, or a delete. *)
Lemma step_db w e :
  db (step w e) = db w \/
  exists d d', db w = Some d /\ db (step w e) = Some d' /\
    ((exists text, Text.blank text = false /\ Gateway.create text d = Resolved d') \/
     (exists i text, Text.blank text = false /\ Gateway.update i text d = Resolved d') \/
     (exists i, Gateway.delete i d = Resolved d')).
Proof.
  unfold step, fire.
  destruct e; simpl handler; try (left; destruct w; reflexivity).
  - left. apply (loadNotes_db (cells w)
      {| db := db w; cells := put_page 0 (put_search text (cells w)) |}).
  - left. apply (loadNotes_db (cells w)
      {| db := db w; cells := put_page (page (cells w) + 1) (cells w) |}).
  - (* Salvar *)
    destruct (Text.blank (currentNote (cells w))) eqn:Hb.
    { left. unfold onSave. destruct (truthy_id _).
      - rewrite updateNote_guard; [done|by left].
      - rewrite addNote_guard; [done|by left]. }
    destruct (db w) as [d|] eqn:Hd.
    2:{ left. unfold onSave. destruct (truthy_id _).
        - rewrite updateNote_guard; [done|by right; right].
        - rewrite addNote_guard; [done|by right]. }
    unfold onSave. destruct (truthy_id _).
    + destruct (editingNoteId (cells w)) as [i|] eqn:Hi.
      * destruct (updateNote_resolved _ w d i Hd Hb Hi) as (d' & Hd' & ->).
        right. exists d, d'. split; [done|]. cbn [world_of]. rewrite reload_db. split; [done|].
        right. left. by exists i, (currentNote (cells w)).
      * left. rewrite updateNote_guard; [exact Hd|]. right. by left.
    + destruct (Gateway.create (currentNote (cells w)) d) as [d'|err] eqn:Hc.
      * rewrite (addNote_resolved _ w d d' Hd Hb Hc).
        right. exists d, d'. split; [done|]. cbn [world_of]. rewrite reload_db. split; [done|].
        left. by exists (currentNote (cells w)).
      * rewrite (addNote_rejected _ w d err Hd Hb Hc). left. exact Hd.
  - (* Sim *)
    destruct (db w) as [d|] eqn:Hd.
    2:{ left. rewrite deleteNote_guard; [done|by right]. }
    destruct (deleteNoteId (cells w)) as [i|] eqn:Hi.
    + destruct (deleteNote_resolved _ w d i Hd Hi) as (d' & Hd' & ->).
      right. exists d, d'. split; [done|]. cbn [world_of]. rewrite reload_db. split; [done|].
      right. right. by exists i.
    + left. rewrite deleteNote_guard; [exact Hd|by left].
Qed.

Lemma step_no_blank_row w e : no_blank_row w -> no_blank_row (step w e).
Proof.
  intros Hw. destruct (step_db w e) as [E|(d & d' & Hd & Hd' & Hop)].
  - unfold no_blank_row. rewrite E. exact Hw.
  - intros d2 i t E2 Hi. rewrite Hd' in E2. injection E2 as <-.
    destruct Hop as [(text & Hb & Hc)|[(j & text & Hb & Hu)|(j & Hdel)]].
    + unfold Gateway.create, runAsync in Hc.
      destruct (MAX_ROWID <=? high_water d); [done|]. injection Hc as <-.
      simpl in Hi. apply lookup_insert_Some in Hi as [[_ <-]|[_ Hi]]; [done|].
      by apply (Hw d i t).
    + rewrite update_resolved in Hu. injection Hu as <-. simpl in Hi.
      destruct (decide (j = i)) as [->|Hne].
      * rewrite lookup_alter_eq in Hi. destruct (rows d !! i); [|done].
        by injection Hi as <-.
      * rewrite lookup_alter_ne in Hi by done. by apply (Hw d i t).
    + rewrite delete_resolved in Hdel. injection Hdel as <-. simpl in Hi.
      apply lookup_delete_Some in Hi as [_ Hi]. by apply (Hw d i t).
Qed.

Lemma run_no_blank_row es : forall w, no_blank_row w -> no_blank_row (run es w).
Proof.
  induction es as [|e es IH]; intros w Hw; [done|].
  apply IH. by apply step_no_blank_row.
Qed.

(** C6. With the add/edit dialog open on a draft that trims to the
    empty string, Salvar returns at once: the world after it is the
    world before it, so the table has the same rows, the dialog is still
    open on the same target and the draft is still there.  As the
    handlers are the only writers, a table without blank rows stays so
    whatever the user does. *)
Theorem save_of_blank_draft_is_noop :
  (forall w, modalVisible (cells w) = true ->
             Text.trim (currentNote (cells w)) = "" ->
             fire PressSave w = Returned tt w /\
             db (step w PressSave) = db w /\
             editDialog (cells (step w PressSave)) = editDialog (cells w) /\
             editDialog (cells w) <> Closed) /\
  (forall es w, no_blank_row w -> no_blank_row (run es w)).
Proof.
  split; [|apply run_no_blank_row].
  intros w Hopen Hblank%blank_trim.
  assert (E : fire PressSave w = Returned tt w).
  { unfold fire. simpl. unfold onSave. destruct (truthy_id _).
    - apply updateNote_guard. by left.
    - apply addNote_guard. by left. }
  unfold step. rewrite E. simpl. repeat split.
  unfold editDialog. rewrite Hopen. by destruct (editingNoteId (cells w)).
Qed.

Lemma save_of_blank_draft_is_noop_witness :
  let w := run [PressAdd; DraftChangeText "   "] (mount None) in
  modalVisible (cells w) = true /\
  Text.trim (currentNote (cells w)) = "" /\
  no_blank_row (mount None) /\
  fire PressSave w = Returned tt w /\
  no_blank_row (run [PressAdd; DraftChangeText "   "; PressSave] (mount None)).
Proof.
  intros w.
  assert (H1 : modalVisible (cells w) = true) by reflexivity.
  assert (H2 : Text.trim (currentNote (cells w)) = "") by reflexivity.
  assert (H3 : no_blank_row (mount None)).
  { intros d i t [= <-] Hi. simpl in Hi. by rewrite lookup_empty in Hi. }
  destruct save_of_blank_draft_is_noop as [Hsave Hrun].
  exact (conj H1 (conj H2 (conj H3 (conj (proj1 (Hsave w H1 H2)) (Hrun _ _ H3))))).
Defined.

Lemma reload_cells r w : exists l, cells (reload r w) = put_notes l (cells w).
Proof.
  assert (Hsame : cells w = put_notes (notes (cells w)) (cells w))
    by (by destruct (cells w)).
  destruct (db w) as [d|] eqn:Hd.
  - destruct (Gateway.answers (search r) limit d) eqn:Ha.
    + rewrite (reload_answered r w d Hd Ha). by eexists.
    + rewrite (reload_rejected r w d Hd Ha). by eexists.
  - rewrite (reload_null r w Hd). by eexists.
Qed.

(** What Salvar leaves: the world as it was, or a reload after setters
    of the dialog cells and of the page. *)
Lemma step_save_cases w :
  step w PressSave = w \/
  exists d' v i,
    step w PressSave =
    reload (cells w)
      {| db := Some d';
         cells := put_page 0 (put_editingNoteId i
                    (put_currentNote "" (put_modalVisible false (cells w)))) |} /\
    (i = None \/ i = editingNoteId (cells w)) /\ v = tt.
Proof.
  unfold step, fire. simpl handler. unfold onSave.
  destruct (Text.blank (currentNote (cells w))) eqn:Hb.
  { left. destruct (truthy_id _).
    - rewrite updateNote_guard; [done|by left].
    - rewrite addNote_guard; [done|by left]. }
  destruct (db w) as [d|] eqn:Hd.
  2:{ left. destruct (truthy_id _).
      - rewrite updateNote_guard; [done|by right; right].
      - rewrite addNote_guard; [done|by right]. }
  destruct (truthy_id _).
  - destruct (editingNoteId (cells w)) as [i|] eqn:Hi.
    + destruct (updateNote_resolved _ w d i Hd Hb Hi) as (d' & _ & ->).
      right. exists d', tt, None. split; [reflexivity|]. split; [by left|done].
    + left. rewrite updateNote_guard; [done|]. right. by left.
  - destruct (Gateway.create (currentNote (cells w)) d) as [d'|err] eqn:Hc.
    + rewrite (addNote_resolved _ w d d' Hd Hb Hc).
      right. exists d', tt, (editingNoteId (cells w)).
      split; [reflexivity|]. split; [by right|done].
    + rewrite (addNote_rejected _ w d err Hd Hb Hc). by left.
Qed.




(** C9. Salvar on a new note whose draft does not trim to the empty
    string, the insert being accepted, adds one row: its id is the next
    id of the table, which no row had, and its text is the draft as it
    was typed, white space included; the other rows are as before, and
    the search with the empty term returns the new note with that very
    text. *)
Theorem save_keeps_surrounding_whitespace w d :
  db w = Some d ->
  truthy_id (editingNoteId (cells w)) = false ->
  Text.trim (currentNote (cells w)) <> "" ->
  high_water d < MAX_ROWID ->
  let draft := currentNote (cells w) in
  exists d',
    db (step w PressSave) = Some d' /\
    rows d !! next_rowid d = None /\
    rows d' = <[next_rowid d := draft]> (rows d) /\
    mkNote (next_rowid d) draft ∈ Gateway.search "" (size (rows d')) 0 d' /\
    (Text.trim draft <> draft ->
     mkNote (next_rowid d) (Text.trim draft) ∉ Gateway.search "" (size (rows d')) 0 d').
Proof.
  intros Hd Hnew Hb%not_blank_trim Hroom draft.
  pose proof (create_resolved draft d Hroom) as Hc.
  eexists. unfold step, fire. simpl handler. unfold onSave. rewrite Hnew.
  rewrite (addNote_resolved _ w d _ Hd Hb Hc). cbn [world_of]. rewrite reload_db. simpl.
  split; [done|]. split; [apply next_rowid_fresh|]. split; [done|].
  split.
  - apply elem_of_search_all. split; [|apply like_empty_term].
    unfold Gateway.stored. simpl. apply lookup_insert_eq.
  - intros Hne Hin. apply elem_of_search_all in Hin as [Hin _].
    unfold Gateway.stored in Hin. simpl in Hin.
    rewrite lookup_insert_eq in Hin. by injection Hin as Hin.
Qed.

Lemma save_keeps_surrounding_whitespace_witness :
  let w := run [PressAdd; DraftChangeText "  a  "] (mount None) in
  db w = Some empty_db /\
  truthy_id (editingNoteId (cells w)) = false /\
  Text.trim (currentNote (cells w)) = "a" /\
  high_water empty_db < MAX_ROWID /\
  exists d', db (step w PressSave) = Some d' /\ rows d' = <[1 := "  a  "]> ∅.
Proof.
  intros w.
  assert (H1 : db w = Some empty_db) by reflexivity.
  assert (H2 : truthy_id (editingNoteId (cells w)) = false) by reflexivity.
  assert (H3 : Text.trim (currentNote (cells w)) = "a") by reflexivity.
  assert (H3' : Text.trim (currentNote (cells w)) <> "") by (by rewrite H3).
  assert (H4 : high_water empty_db < MAX_ROWID) by (vm_compute; reflexivity).
  destruct (save_keeps_surrounding_whitespace w empty_db H1 H2 H3' H4)
    as (d' & Hd' & _ & Hrows & _).
  split; [exact H1|]. split; [exact H2|]. split; [exact H3|]. split; [exact H4|].
  exists d'. split; [exact Hd'|exact Hrows].
Defined.

(** C10. Salvar runs [updateNote] when [editingNoteId] holds an id other
    than 0, and [addNote] when it holds [null] or 0.  So for a note with
    id 0 opened from its card, Salvar inserts the draft as a new row and
    leaves row 0 with its text.  The table never gives the id 0 to a
    row: the next id is at least 1. *)
Theorem save_routes_on_truthy_id :
  (forall r i, editingNoteId r = Some i -> i <> 0 -> onSave r = updateNote r) /\
  (forall r, editingNoteId r = None \/ editingNoteId r = Some 0 ->
             onSave r = addNote r) /\
  (forall w d t draft,
     db w = Some d -> rows d !! 0 = Some t ->
     Text.trim draft <> "" -> high_water d < MAX_ROWID ->
     let w1 := run [PressCard (mkNote 0 t); DraftChangeText draft] w in
     editDialog (cells w1) = EditingExisting 0 draft /\
     exists d', db (step w1 PressSave) = Some d' /\
                rows d' = <[next_rowid d := draft]> (rows d) /\
                rows d' !! 0 = Some t) /\
  (forall d, 1 <= next_rowid d).
Proof.
  split; [exact onSave_update|]. split; [exact onSave_add|]. split.
  - intros w d t draft Hd H0 Hb%not_blank_trim Hroom w1.
    split; [reflexivity|].
    pose proof (create_resolved draft d Hroom) as Hc.
    assert (Hd1 : db w1 = Some d) by (destruct w; exact Hd).
    assert (E : fire PressSave w1 = addNote (cells w1) w1) by reflexivity.
    eexists. unfold step. rewrite E.
    rewrite (addNote_resolved (cells w1) w1 d _ Hd1 Hb Hc). cbn [world_of]. rewrite reload_db. simpl.
    split; [done|]. split; [done|]. simpl.
    rewrite lookup_insert_ne; [done|].
    pose proof (next_rowid_fresh d) as Hf. intros E0. rewrite E0 in Hf. congruence.
  - intros d. unfold next_rowid, high_water, max_rowid.
    pose proof (max_list_nonneg (map_to_list (rows d)).*1). lia.
Qed.

Lemma save_routes_on_truthy_id_witness :
  let d := {| rows := <[0 := "zero"]> ∅; seq := 0 |} in
  let w := mount (Some d) in
  let w1 := run [PressCard (mkNote 0 "zero"); DraftChangeText "draft"] w in
  db w = Some d /\ rows d !! 0 = Some "zero" /\ Text.trim "draft" <> "" /\
  high_water d < MAX_ROWID /\
  onSave (cells w1) = addNote (cells w1) /\
  exists d', db (step w1 PressSave) = Some d' /\
             rows d' = <[1 := "draft"]> (rows d) /\ rows d' !! 0 = Some "zero".
Proof.
  intros d w w1.
  assert (H1 : db w = Some d) by reflexivity.
  assert (H2 : rows d !! 0 = Some "zero") by reflexivity.
  assert (H3 : Text.trim "draft" <> "") by done.
  assert (H4 : high_water d < MAX_ROWID) by (vm_compute; reflexivity).
  destruct save_routes_on_truthy_id as (_ & Hadd & Hzero & _).
  destruct (Hzero w d "zero" "draft" H1 H2 H3 H4) as (_ & d' & Hd' & Hrows & H0).
  split; [exact H1|]. split; [exact H2|]. split; [exact H3|]. split; [exact H4|].
  split; [apply Hadd; by right|].
  exists d'. split; [exact Hd'|]. split; [exact Hrows|exact H0].
Defined.

End Dialogs.

(** * Further properties of the component *)

(** ** Pages and keys *)

Section Pages.
Import SQLite Gateway.

Lemma strictly_descending_ids l : strictly_descending l -> NoDup (id <$> l).
Proof.
  unfold strictly_descending. induction 1 as [|a l Hs IH Ha]; [constructor|].
  rewrite fmap_cons. apply NoDup_cons. split; [|done].
  intros (b & E & Hb)%list_elem_of_fmap. rewrite Forall_forall in Ha.
  specialize (Ha b Hb). lia.
Qed.

Lemma search_join term n m offset d :
  search term n offset d ++ search term m (offset + n) d
    = search term (n + m) offset d.
Proof. unfold search, select_rows. rewrite <- drop_drop. apply take_take_drop. Qed.

(** X1. Consecutive pages join: [n] rows from an offset followed by [m]
    rows from [n] further are the [n + m] rows from that offset; so the
    pages 0..k-1 of 50 rows, end to end, are the first [k * 50] rows.  A
    page that starts at or after the end of the listing is empty. *)
Theorem pages_join term n m offset d :
  search term n offset d ++ search term m (offset + n) d
    = search term (n + m) offset d /\
  (forall k, foldr (fun i acc => search term 50 (i * 50) d ++ acc) []
               (List.seq 0 k)
             = search term (k * 50) 0 d) /\
  ((length (search term (size (rows d)) 0 d) <= offset)%nat ->
   search term n offset d = []).
Proof.
  split; [|split].
  - apply search_join.
  - intros k. unfold search, select_rows.
    set (l := where_like ("%" +:+ term +:+ "%") d). rewrite drop_0.
    assert (H : forall j b,
      foldr (fun i acc => take 50 (drop (i * 50) l) ++ acc) [] (List.seq b j)
      = take (j * 50) (drop (b * 50) l)).
    { induction j as [|j IH]; intros b; [done|]. simpl foldr. rewrite IH.
      replace (S b * 50)%nat with (b * 50 + 50)%nat by lia.
      rewrite <- drop_drop, take_take_drop. f_equal. }
    by rewrite H, drop_0.
  - rewrite search_all. intros H. unfold search, select_rows.
    rewrite drop_ge by done. apply take_nil.
Qed.

Lemma pages_join_witness :
  let d := Sample.filled 3 in
  (length (search "" (size (rows d)) 0 d) <= 50)%nat /\
  search "" 50 50 d = [] /\
  search "" 2 0 d ++ search "" 1 2 d = search "" 3 0 d.
Proof.
  intros d.
  assert (H : (length (search "" (size (rows d)) 0 d) <= 50)%nat) by (vm_compute; lia).
  destruct (pages_join "" 50 0 50 d) as (_ & _ & Hend).
  destruct (pages_join "" 2 1 0 d) as (Hjoin & _).
  exact (conj H (conj (Hend H) Hjoin)).
Defined.

Lemma elem_of_search_stored term lim off d n :
  n ∈ Gateway.search term lim off d ->
  Gateway.stored d n /\ Text.like ("%" +:+ term +:+ "%") (note n) = true.
Proof.
  intros Hn. apply elem_of_where_like.
  eapply elem_of_sublist; [exact Hn|].
  unfold Gateway.search, select_rows. etrans; [apply sublist_take|apply sublist_drop].
Qed.

(** X2. The rows of an answer have pairwise different ids; and when
    every id of the table is a safe integer, [keyExtractor] gives each
    row of the answer a key, and the keys are pairwise different. *)
Theorem search_keys_distinct term limit offset d res :
  query term limit offset d = Resolved res ->
  NoDup (id <$> res) /\
  ((forall n, stored d n -> View.isSafeInteger (id n) = true) ->
   exists keys, mapM View.keyExtractor res = Some keys /\
     length keys = length res /\ NoDup keys).
Proof.
  intros Hq.
  assert (Ha : answers term limit d = true).
  { destruct (answers term limit d) eqn:E; [done|].
    rewrite (query_rejected term limit offset d E) in Hq. discriminate. }
  pose proof (eq_trans (eq_sym (query_answered term limit offset d Ha)) Hq) as E.
  assert (Hres : search term limit offset d = res) by congruence.
  clear E Hq. subst res.
  pose proof (strictly_descending_ids _ (search_descending term limit offset d)) as H.
  split; [done|]. intros Hsafe.
  exists ((pretty ∘ id) <$> search term limit offset d). split; [|split].
  - apply mapM_Some, Forall2_fmap_r, Forall_Forall2_diag, Forall_forall.
    intros n Hn. apply elem_of_search_stored in Hn as [Hn _].
    unfold View.keyExtractor. by rewrite (Hsafe n Hn).
  - by rewrite length_fmap.
  - rewrite list_fmap_compose. by apply (NoDup_fmap_2 _).
Qed.

Lemma search_keys_distinct_witness :
  query "an" 50 0 Sample.fruits = Resolved [mkNote 2 "banana"] /\
  (forall n, stored Sample.fruits n -> View.isSafeInteger (id n) = true) /\
  exists keys, mapM View.keyExtractor [mkNote 2 "banana"] = Some keys /\
    length keys = 1%nat /\ NoDup keys.
Proof.
  assert (Hq : query "an" 50 0 Sample.fruits = Resolved [mkNote 2 "banana"])
    by (vm_compute; reflexivity).
  assert (Hsafe : forall n, stored Sample.fruits n -> View.isSafeInteger (id n) = true).
  { assert (Hall : map_Forall (fun i _ => View.isSafeInteger i = true) (rows Sample.fruits))
      by (apply (bool_decide_unpack _); vm_compute; exact I).
    intros n Hn. exact (Hall _ _ Hn). }
  destruct (search_keys_distinct "an" 50 0 Sample.fruits _ Hq) as [_ Hkeys].
  exact (conj Hq (conj Hsafe (Hkeys Hsafe))).
Defined.

End Pages.

(** ** Cards *)

Section Cards.
Import View.

Lemma length_append (a b : string) :
  String.length (a +:+ b) = (String.length a + String.length b)%nat.
Proof.
  induction a as [|c a IH]; [done|].
  rewrite append_cons. simpl. by rewrite IH.
Qed.

Lemma substring_0_length n : forall s,
  String.length (String.substring 0 n s) = (n `min` String.length s)%nat.
Proof.
  induction n as [|n IH]; intros [|c s]; simpl; try done. by rewrite IH.
Qed.

Lemma substring_0_prefix n : forall s,
  exists rest, s = String.substring 0 n s +:+ rest.
Proof.
  induction n as [|n IH]; intros [|c s]; simpl.
  - by exists "".
  - by exists (String c s).
  - by exists "".
  - destruct (IH s) as [rest E]. exists rest. rewrite append_cons. by rewrite <- E.
Qed.

(** X3. A card never shows more than 33 characters.  A note of at most
    30 characters is shown whole; a longer one is shown as its first 30
    characters followed by three dots. *)
Theorem card_text_bounded item :
  (String.length (cardText item) <= 33)%nat /\
  ((String.length (note item) <= 30)%nat -> cardText item = note item) /\
  ((30 < String.length (note item))%nat ->
   String.length (cardText item) = 33%nat /\
   exists shown rest,
     String.length shown = 30%nat /\
     note item = shown +:+ rest /\
     cardText item = shown +:+ "...").
Proof.
  unfold cardText.
  destruct (30 <? String.length (note item))%nat eqn:E.
  - apply Nat.ltb_lt in E.
    assert (L : String.length (String.substring 0 30 (note item)) = 30%nat).
    { rewrite substring_0_length. lia. }
    assert (L3 : String.length (String.substring 0 30 (note item) +:+ "...") = 33%nat).
    { rewrite length_append, L. done. }
    split; [lia|]. split; [lia|]. intros _. split; [done|].
    destruct (substring_0_prefix 30 (note item)) as [rest Hrest].
    by exists (String.substring 0 30 (note item)), rest.
  - apply Nat.ltb_ge in E. split; [lia|]. split; [done|]. lia.
Qed.

Lemma card_text_bounded_witness :
  let short := mkNote 1 "Buy milk" in
  let long := mkNote 2 "A note of more than thirty characters" in
  (String.length (note short) <= 30)%nat /\
  (30 < String.length (note long))%nat /\
  cardText short = "Buy milk" /\
  String.length (cardText long) = 33%nat.
Proof.
  intros short long.
  assert (H1 : (String.length (note short) <= 30)%nat) by (vm_compute; lia).
  assert (H2 : (30 < String.length (note long))%nat) by (vm_compute; lia).
  destruct (card_text_bounded short) as (_ & Hs & _).
  destruct (card_text_bounded long) as (_ & _ & Hl).
  exact (conj H1 (conj H2 (conj (Hs H1) (proj1 (Hl H2))))).
Defined.

End Cards.

(** ** Wild cards, and ids that are not given twice *)

Section Store.
Import SQLite Gateway.

Lemma where_like_ext p1 p2 d :
  (forall s, Text.like p1 s = Text.like p2 s) -> where_like p1 d = where_like p2 d.
Proof.
  intros H. unfold where_like. f_equal. apply list_filter_iff.
  intros n. by rewrite H.
Qed.

Lemma like_one_char text : Text.like "%_%" text = true <-> text <> "".
Proof.
  change "%_%" with ("%" +:+ "_" +:+ "%"). rewrite like_contains. split.
  - intros (pre & mid & post & -> & H) E. destruct mid as [|c mid]; [done|].
    destruct pre; done.
  - intros H. destruct text as [|c text]; [done|].
    by exists "", (String c ""), text.
Qed.

(** X4. The term is not escaped: [%] alone finds every note, as the
    empty term does, and [_] alone finds the notes whose text is not
    empty. *)
Theorem wildcard_terms limit offset d :
  search "%" limit offset d = search "" limit offset d /\
  (forall n, n ∈ search "_" (size (rows d)) 0 d <-> stored d n /\ note n <> "").
Proof.
  split.
  - unfold search, select_rows. f_equal. f_equal. apply where_like_ext.
    intros s. rewrite (like_empty_term s).
    apply like_contains. exists "", "", s. split; [done|]. reflexivity.
  - intros n. rewrite elem_of_search_all.
    change ("%" +:+ "_" +:+ "%") with "%_%". by rewrite like_one_char.
Qed.

(** X5. An id is used up by its insert: after [create] and the
    [delete] of the new note, the rows are those of before, and the next
    [create] gets the id after the one deleted. *)
Theorem deleted_id_is_not_given_again text d :
  high_water d < MAX_ROWID ->
  exists d1 d2,
    create text d = Resolved d1 /\
    delete (next_rowid d) d1 = Resolved d2 /\
    rows d2 = rows d /\
    next_rowid d2 = next_rowid d + 1 /\
    rows d2 !! next_rowid d = None.
Proof.
  intros Hroom. eexists _, _.
  split; [by apply create_resolved|]. split; [apply delete_resolved|]. simpl.
  pose proof (next_rowid_fresh d) as Hfresh.
  assert (E : base.delete (next_rowid d) (<[next_rowid d := text]> (rows d)) = rows d)
    by (by apply delete_insert_id).
  rewrite E. split; [done|]. split; [|done].
  unfold next_rowid, high_water. simpl. lia.
Qed.

Lemma deleted_id_is_not_given_again_witness :
  high_water Sample.fruits < MAX_ROWID /\
  exists d1 d2,
    create "cherry" Sample.fruits = Resolved d1 /\
    delete 3 d1 = Resolved d2 /\
    rows d2 = rows Sample.fruits /\
    next_rowid d2 = 4.
Proof.
  assert (H : high_water Sample.fruits < MAX_ROWID) by (vm_compute; reflexivity).
  destruct (deleted_id_is_not_given_again "cherry" Sample.fruits H)
    as (d1 & d2 & H1 & H2 & H3 & H4 & _).
  split; [exact H|]. exists d1, d2.
  split; [exact H1|]. split; [exact H2|]. split; [exact H3|exact H4].
Defined.

(** X6. Along any sequence of operations run on the empty table, the
    ids given to the created notes go strictly up, starting at 1 or
    above, and none is above the counter of the table. *)
Theorem created_ids_go_up ops :
  let d := (execute ops empty_db).1 in
  let journal := (execute ops empty_db).2 in
  StronglySorted Z.lt (created_ids journal) /\
  (forall i, i ∈ created_ids journal -> 1 <= i <= seq d).
Proof.
  intros d journal.
  assert (Hbound : forall i, i ∈ created_ids journal -> i <= seq d).
  { intros i [t Hin]%elem_of_created_ids.
    destruct (agree_execute ops) as (_ & Hseq & _). by apply (Hseq i t). }
  assert (Hmain : StronglySorted Z.lt (created_ids journal) /\
                  forall i, i ∈ created_ids journal -> 1 <= i).
  { subst d journal. clear Hbound.
    induction ops as [|o ops IH] using rev_ind.
    { split; [constructor|]. intros i Hi. by apply elem_of_nil in Hi. }
    destruct IH as [Hsorted Hpos]. rewrite execute_snoc. simpl.
    destruct (agree_execute ops) as (_ & Hseq & _).
    set (d0 := (execute ops empty_db).1) in *.
    set (j0 := (execute ops empty_db).2) in *.
    destruct o as [text|i text|i]; simpl.
    - unfold create, runAsync.
      destruct (MAX_ROWID <=? high_water d0); simpl; [by rewrite app_nil_r|].
      rewrite created_ids_snoc. split.
      + apply StronglySorted_app_2; [|exact Hsorted|repeat constructor].
        intros x1 x2 [t Hx1]%elem_of_created_ids Hx2%list_elem_of_singleton.
        subst x2. apply Hseq in Hx1. pose proof (high_water_seq d0).
        unfold next_rowid. lia.
      + intros i [Hi|Hi%list_elem_of_singleton]%elem_of_app; [by apply Hpos|].
        subst i. unfold next_rowid, high_water, max_rowid.
        pose proof (max_list_nonneg (map_to_list (rows d0)).*1). lia.
    - rewrite created_ids_snoc, app_nil_r. done.
    - rewrite created_ids_snoc, app_nil_r. done. }
  destruct Hmain as [Hsorted Hpos]. split; [done|].
  intros i Hi. split; [by apply Hpos|by apply Hbound].
Qed.

Lemma created_ids_go_up_witness :
  let ops := [Create "a"; Create "b"; Delete 2; Create "c"; Update 1 "d"] in
  created_ids (execute ops empty_db).2 = [1; 2; 3] /\
  3 ∈ created_ids (execute ops empty_db).2 /\
  1 <= 3 <= seq (execute ops empty_db).1.
Proof.
  intros ops.
  assert (H1 : created_ids (execute ops empty_db).2 = [1; 2; 3])
    by (vm_compute; reflexivity).
  assert (H2 : 3 ∈ created_ids (execute ops empty_db).2)
    by (rewrite H1; apply list_elem_of_further, list_elem_of_further, list_elem_of_here).
  exact (conj H1 (conj H2 (proj2 (created_ids_go_up ops) 3 H2))).
Defined.

End Store.

(** ** The first load, scrolling and typing *)

Section Browsing.
Import SQLite App.

(** X7. The first effect opens the table found on disk as it is (the
    empty one when there is none) and shows, newest first, its 50 newest
    notes, or all of them when there are no more than 50; nothing else
    of the state moves. *)
Theorem first_load_shows_newest disk :
  let d := default empty_db disk in
  let w := mount disk in
  db w = Some d /\
  cells w = put_notes (Gateway.search "" limit 0 d) initial /\
  length (notes (cells w)) = (50 `min` size (rows d))%nat /\
  Gateway.strictly_descending (notes (cells w)) /\
  (forall n, n ∈ notes (cells w) -> Gateway.stored d n) /\
  ((size (rows d) <= 50)%nat ->
   forall n, Gateway.stored d n -> n ∈ notes (cells w)).
Proof.
  intros d w.
  assert (E : notes (cells w) = Gateway.search "" limit 0 d) by reflexivity.
  pose proof (length_search_all_empty d) as Hlen. rewrite search_all in Hlen.
  split; [done|]. split; [done|]. rewrite E. split; [|split; [|split]].
  - unfold Gateway.search, select_rows. rewrite drop_0, length_take, Hlen. done.
  - apply search_descending.
  - intros n Hn. unfold Gateway.search, select_rows in Hn. rewrite drop_0 in Hn.
    assert (Hn' : n ∈ where_like ("%" +:+ "" +:+ "%") d)
      by (eapply elem_of_sublist; [exact Hn|apply sublist_take]).
    by apply elem_of_where_like in Hn' as [Hn' _].
  - intros Hsmall n Hn. unfold Gateway.search, select_rows.
    rewrite drop_0, take_ge by (rewrite Hlen; exact Hsmall).
    apply elem_of_where_like. split; [done|apply like_empty_term].
Qed.

Lemma first_load_shows_newest_witness :
  let w := mount (Some Sample.fruits) in
  (size (rows Sample.fruits) <= 50)%nat /\
  Gateway.stored Sample.fruits (mkNote 1 "apple") /\
  mkNote 1 "apple" ∈ notes (cells w).
Proof.
  intros w.
  assert (H1 : (size (rows Sample.fruits) <= 50)%nat) by (vm_compute; lia).
  assert (H2 : Gateway.stored Sample.fruits (mkNote 1 "apple"))
    by (vm_compute; reflexivity).
  destruct (first_load_shows_newest (Some Sample.fruits)) as (_ & _ & _ & _ & _ & H).
  exact (conj H1 (conj H2 (H H1 _ H2))).
Defined.

(** X8. While [db] is still [null] no event reaches the table or the
    list: [db] stays [null], the notes on screen stay, and Salvar and Sim
    leave the whole state as it is. *)
Theorem nothing_is_loaded_before_open w e :
  db w = None ->
  db (step w e) = None /\
  notes (cells (step w e)) = notes (cells w) /\
  (e = PressSave \/ e = PressSim -> step w e = w).
Proof.
  destruct w as [o c]. simpl. intros ->.
  assert (Hsave : step {| db := None; cells := c |} PressSave
                  = {| db := None; cells := c |}).
  { unfold step, fire. simpl handler. unfold onSave. destruct (truthy_id _).
    - rewrite updateNote_guard; [done|]. right. by right.
    - rewrite addNote_guard; [done|]. by right. }
  assert (Hsim : step {| db := None; cells := c |} PressSim
                 = {| db := None; cells := c |}).
  { unfold step, fire. simpl handler. rewrite deleteNote_guard; [done|]. by right. }
  destruct e; try (split; [reflexivity|split; [reflexivity|]]; intros [?|?]; done).
  - by rewrite Hsave.
  - by rewrite Hsim.
Qed.

Lemma nothing_is_loaded_before_open_witness :
  let w := {| db := None; cells := put_currentNote "note" (put_modalVisible true initial) |} in
  db w = None /\ step w PressSave = w /\ db (step w EndReached) = None.
Proof.
  intros w.
  assert (H : db w = None) by reflexivity.
  destruct (nothing_is_loaded_before_open w PressSave H) as (_ & _ & Hsave).
  destruct (nothing_is_loaded_before_open w EndReached H) as (Hdb & _).
  exact (conj H (conj (Hsave (or_introl eq_refl)) Hdb)).
Defined.

Lemma run_snoc es e w : run (es ++ [e]) w = step (run es w) e.
Proof. unfold run. by rewrite foldl_snoc. Qed.

Lemma scroll_closed d c k :
  page c = 0%nat -> Gateway.answers (search c) limit d = true ->
  run (replicate (S k) EndReached) {| db := Some d; cells := c |} =
  {| db := Some d;
     cells := put_notes (Gateway.search (search c) (S k * limit) 0 d)
                (put_page (S k) c) |}.
Proof.
  intros Hpage Ha. induction k as [|k IH].
  - change (run (replicate 1 EndReached) {| db := Some d; cells := c |})
      with (step {| db := Some d; cells := c |} EndReached).
    rewrite step_EndReached. erewrite reload_answered; [|reflexivity|exact Ha].
    unfold loaded. rewrite Hpage. reflexivity.
  - rewrite replicate_S_end, run_snoc, IH, step_EndReached.
    set (N := Gateway.search (search c) (S k * limit) 0 d).
    erewrite reload_answered; [|reflexivity|exact Ha].
    assert (Hl : loaded (put_notes N (put_page (S k) c)) d
                 = Gateway.search (search c) (S (S k) * limit) 0 d).
    { unfold loaded. change (page (put_notes N (put_page (S k) c))) with (S k).
      change (search (put_notes N (put_page (S k) c))) with (search c).
      change (notes (put_notes N (put_page (S k) c))) with N.
      destruct (decide (S k = 0%nat)) as [|_]; [done|].
      replace (S (S k) * limit)%nat with (S k * limit + limit)%nat by lia.
      exact (search_join (search c) (S k * limit) limit 0 d). }
    rewrite Hl. change (page (put_notes N (put_page (S k) c))) with (S k).
    replace (S k + 1)%nat with (S (S k)) by lia. reflexivity.
Qed.

Lemma scroll_rejected d c n :
  Gateway.answers (search c) limit d = false ->
  run (replicate n EndReached) {| db := Some d; cells := c |} =
  {| db := Some d; cells := put_page (page c + n) c |}.
Proof.
  intros Ha. induction n as [|n IH].
  - rewrite Nat.add_0_r. by destruct c.
  - rewrite replicate_S_end, run_snoc, IH, step_EndReached.
    erewrite reload_rejected; [|reflexivity|exact Ha].
    change (page (put_page (page c + n) c)) with (page c + n)%nat.
    replace (page c + n + 1)%nat with (page c + S n)%nat by lia. reflexivity.
Qed.

(** X10. Scrolling from page 0. After the end of the list has been
    reached [k + 1] times, with the table unchanged, the page counter is
    [k + 1].  When the query for the term on screen is answered, the list
    holds the first [(k + 1) * 50] rows of that search, that is the pages
    0 to [k], in descending order and with no row twice; the first of
    these events only loads page 0 again.  When that query is
    rejected, the list stays as it was. *)
Theorem scrolling_loads_one_page_behind d c k :
  page c = 0%nat ->
  let w := run (replicate (S k) EndReached) {| db := Some d; cells := c |} in
  db w = Some d /\
  page (cells w) = S k /\
  search (cells w) = search c /\
  (Gateway.answers (search c) limit d = true ->
   notes (cells w) = Gateway.search (search c) (S k * limit) 0 d /\
   Gateway.strictly_descending (notes (cells w)) /\
   NoDup (notes (cells w))) /\
  (Gateway.answers (search c) limit d = false -> notes (cells w) = notes c).
Proof.
  intros Hpage w. subst w.
  destruct (Gateway.answers (search c) limit d) eqn:Ha.
  - rewrite (scroll_closed d c k Hpage Ha).
    cbn [db cells page search notes put_notes put_page].
    split; [done|]. split; [done|]. split; [by destruct c|]. split; [|done].
    intros _. split; [done|]. split; [apply search_descending|].
    apply strictly_descending_NoDup, search_descending.
  - rewrite (scroll_rejected d c (S k) Ha), Hpage.
    cbn [db cells page search notes put_page].
    split; [done|]. split; [done|]. split; [done|]. split; [done|]. done.
Qed.

Lemma scrolling_loads_one_page_behind_witness :
  let w0 := mount (Some (Sample.filled 120)) in
  let w := run (replicate 3 EndReached) w0 in
  page (cells w0) = 0%nat /\
  page (cells w) = 3%nat /\
  length (notes (cells w)) = 120%nat.
Proof.
  intros w0 w.
  assert (H : page (cells w0) = 0%nat) by reflexivity.
  destruct (scrolling_loads_one_page_behind (Sample.filled 120) (cells w0) 2 H)
    as (_ & Hp & _ & Hn & _).
  destruct (Hn eq_refl) as [Hn' _]. clear Hn. rename Hn' into Hn.
  split; [exact H|]. split; [exact Hp|].
  change (notes (cells w)) with
    (notes (cells (run (replicate 3 EndReached)
                     {| db := Some (Sample.filled 120); cells := cells w0 |}))).
  rewrite Hn. vm_compute. reflexivity.
Defined.

Lemma step_SearchChangeText_world d c text :
  exists l,
    step {| db := Some d; cells := c |} (SearchChangeText text)
    = {| db := Some d; cells := put_notes l (put_page 0 (put_search text c)) |}.
Proof.
  rewrite step_SearchChangeText.
  destruct (reload_cases c d (put_page 0 (put_search text c))) as [[_ ->]|[_ ->]].
  - by eexists.
  - exists (notes c). by destruct c.
Qed.

(** X11. Typing in the search field. After two changes of the term in a
    row the term on screen is the second one and the page counter is 0.
    When the query for the first term is answered, the list is page 0 of
    the search for the first term: the list is one keystroke behind,
    whatever was on screen before.  When the query for the first term
    is rejected, the second change leaves the list as the first left it. *)
Theorem list_is_one_keystroke_behind d c t1 t2 :
  let w1 := step {| db := Some d; cells := c |} (SearchChangeText t1) in
  let w := run [SearchChangeText t1; SearchChangeText t2]
             {| db := Some d; cells := c |} in
  db w = Some d /\
  search (cells w) = t2 /\
  page (cells w) = 0%nat /\
  (Gateway.answers t1 limit d = true -> notes (cells w) = Gateway.search t1 limit 0 d) /\
  (Gateway.answers t1 limit d = false -> notes (cells w) = notes (cells w1)).
Proof.
  intros w1 w.
  assert (E : w = step w1 (SearchChangeText t2)) by reflexivity.
  destruct (step_SearchChangeText_world d c t1) as [l Hl]. fold w1 in Hl.
  rewrite Hl in E. rewrite step_SearchChangeText in E. rewrite E, Hl.
  set (c1 := put_notes l (put_page 0 (put_search t1 c))).
  destruct (reload_cases c1 d (put_page 0 (put_search t2 c1))) as [[Ha ->]|[Ha ->]];
    change (search c1) with t1 in Ha; rewrite Ha;
    (split; [done|]); (split; [done|]); (split; [done|]); split; done.
Qed.

Lemma list_is_one_keystroke_behind_witness :
  let d := Sample.fruits in
  let w0 := {| db := Some d; cells := initial |} in
  Gateway.answers "b" limit d = true /\
  notes (cells (run [SearchChangeText "b"; SearchChangeText "x"] w0))
  = Gateway.search "b" limit 0 d /\
  Gateway.answers Sample.long_term limit d = false /\
  notes (cells (run [SearchChangeText Sample.long_term; SearchChangeText "x"] w0))
  = notes (cells (step w0 (SearchChangeText Sample.long_term))).
Proof.
  intros d w0.
  assert (Ha : Gateway.answers "b" limit d = true) by reflexivity.
  destruct (list_is_one_keystroke_behind d initial "b" "x") as (_ & _ & _ & Hans & _).
  pose proof (Hans Ha) as H1. clear Hans.
  assert (Hl : Gateway.answers Sample.long_term limit d = false) by (vm_compute; reflexivity).
  exact (conj Ha (conj H1 (conj Hl
    (proj2 (proj2 (proj2 (proj2
       (list_is_one_keystroke_behind d initial Sample.long_term "x")))) Hl)))).
Defined.

End Browsing.

(** ** The add, edit and delete flows *)

Section Flows.
Import SQLite App.

Lemma reload_page0 r w d :
  db w = Some d -> page r = 0%nat -> Gateway.answers (search r) limit d = true ->
  reload r w =
  {| db := Some d;
     cells := put_notes (Gateway.search (search r) limit 0 d) (cells w) |}.
Proof.
  intros Hd Hp Ha. rewrite (reload_answered r w d Hd Ha). unfold loaded. rewrite Hp.
  reflexivity.
Qed.

Lemma head_of_descending l n :
  Gateway.strictly_descending l -> n ∈ l ->
  (forall m, m ∈ l -> id m <= id n) -> head l = Some n.
Proof.
  unfold Gateway.strictly_descending. intros Hs Hn Hmax.
  destruct Hs as [|a l Hs Ha]; [by apply elem_of_nil in Hn|].
  apply elem_of_cons in Hn as [->|Hn]; [done|].
  rewrite Forall_forall in Ha. specialize (Ha n Hn).
  specialize (Hmax a ltac:(apply elem_of_cons; by left)). lia.
Qed.

Lemma head_search term lim d :
  (0 < lim)%nat ->
  head (Gateway.search term lim 0 d) = head (where_like ("%" +:+ term +:+ "%") d).
Proof.
  intros H. unfold Gateway.search, select_rows. rewrite drop_0.
  destruct lim as [|lim]; [lia|]. by destruct (where_like _ d).
Qed.

Lemma size_alter (m : gmap Z string) f i : size (alter f i m) = size m.
Proof. by rewrite <- !size_dom, dom_alter_L. Qed.

Lemma create_rejected text d :
  MAX_ROWID <= high_water d -> Gateway.create text d = Rejected SQLITE_FULL.
Proof.
  intros H. unfold Gateway.create, runAsync.
  destruct (MAX_ROWID <=? high_water d) eqn:E; [done|].
  apply Z.leb_gt in E. lia.
Qed.

(** X12. The add flow on page 0. After the floating button, a draft
    that does not trim to the empty string and Salvar, the insert being
    accepted: the table has one row more, the dialog is closed and its
    draft emptied, and the page counter and the term are as before.  When
    the query for the term on screen is answered, the list is page 0 of
    that search in the new table, with the new note first when its text
    matches the term and absent when it does not; when that query is
    rejected, the list stays as it was.  The state the dialog
    was left in before does not matter. *)
Theorem added_note_comes_first w d t :
  db w = Some d -> page (cells w) = 0%nat ->
  Text.trim t <> "" -> high_water d < MAX_ROWID ->
  let w' := run [PressAdd; DraftChangeText t; PressSave] w in
  let new := mkNote (next_rowid d) t in
  let pattern := "%" +:+ search (cells w) +:+ "%" in
  exists d',
    Gateway.create t d = Resolved d' /\
    db w' = Some d' /\
    size (rows d') = S (size (rows d)) /\
    editDialog (cells w') = Closed /\
    currentNote (cells w') = "" /\
    page (cells w') = 0%nat /\
    search (cells w') = search (cells w) /\
    (Gateway.answers (search (cells w)) limit d' = true ->
     notes (cells w') = Gateway.search (search (cells w)) limit 0 d' /\
     (Text.like pattern t = true -> head (notes (cells w')) = Some new) /\
     (Text.like pattern t = false -> new ∉ notes (cells w'))) /\
    (Gateway.answers (search (cells w)) limit d' = false ->
     notes (cells w') = notes (cells w)).
Proof.
  intros Hd Hp Hb%not_blank_trim Hroom w' new pattern.
  pose proof (create_resolved t d Hroom) as Hc.
  set (d' := {| rows := <[next_rowid d := t]> (rows d); seq := next_rowid d |}) in *.
  set (w1 := run [PressAdd; DraftChangeText t] w).
  assert (Hd1 : db w1 = Some d) by exact Hd.
  assert (E : w' = step w1 PressSave) by reflexivity.
  assert (Ef : fire PressSave w1 = addNote (cells w1) w1) by reflexivity.
  unfold step in E. rewrite Ef in E.
  rewrite (addNote_resolved (cells w1) w1 d d' Hd1 Hb Hc) in E.
  cbn [world_of] in E.
  set (c0 := put_page 0 (put_modalVisible false (put_currentNote "" (cells w1)))) in E.
  exists d'. split; [done|].
  destruct (reload_cases (cells w1) d' c0) as [[Ha Er]|[Ha Er]];
    rewrite Er in E; change (search (cells w1)) with (search (cells w)) in Ha;
    rewrite E, Ha; cbn [db cells].
  2:{ split; [done|]. split; [apply map_size_insert_None, next_rowid_fresh|].
      split; [done|]. split; [done|]. split; [done|]. split; [done|].
      split; [done|]. intros _. by destruct w. }
  split; [done|]. split; [apply map_size_insert_None, next_rowid_fresh|].
  split; [done|]. split; [done|]. split; [done|]. split; [done|]. split; [|done].
  intros _.
  assert (Hl : loaded (cells w1) d' = Gateway.search (search (cells w)) limit 0 d').
  { unfold loaded. change (page (cells w1)) with (page (cells w)). by rewrite Hp. }
  cbn [notes put_notes]. rewrite Hl. split; [done|]. fold pattern. split.
  - intros Hlike. rewrite head_search by (unfold limit; lia).
    apply head_of_descending; [apply where_like_descending| |].
    + apply elem_of_where_like. split; [|done].
      unfold Gateway.stored. simpl. apply lookup_insert_eq.
    + intros m [Hm _]%elem_of_where_like. unfold Gateway.stored in Hm.
      simpl in Hm. change (id new) with (high_water d + 1).
      apply lookup_insert_Some in Hm as [[<- _]|[_ Hm]]; [unfold next_rowid; lia|].
      apply high_water_bound in Hm. lia.
  - intros Hlike [_ Hin]%elem_of_search_stored.
    change (note new) with t in Hin. unfold pattern in Hlike. congruence.
Qed.

Lemma added_note_comes_first_witness :
  let w := mount (Some Sample.fruits) in
  let w' := run [PressAdd; DraftChangeText "cherry"; PressSave] w in
  db w = Some Sample.fruits /\ page (cells w) = 0%nat /\
  Text.trim "cherry" <> "" /\ high_water Sample.fruits < MAX_ROWID /\
  Text.like ("%" +:+ search (cells w) +:+ "%") "cherry" = true /\
  head (notes (cells w')) = Some (mkNote 3 "cherry").
Proof.
  intros w w'.
  assert (H1 : db w = Some Sample.fruits) by reflexivity.
  assert (H2 : page (cells w) = 0%nat) by reflexivity.
  assert (H3 : Text.trim "cherry" <> "") by done.
  assert (H4 : high_water Sample.fruits < MAX_ROWID) by (vm_compute; reflexivity).
  assert (H5 : Text.like ("%" +:+ search (cells w) +:+ "%") "cherry" = true)
    by reflexivity.
  destruct (added_note_comes_first w Sample.fruits "cherry" H1 H2 H3 H4)
    as (d' & _ & _ & _ & _ & _ & _ & _ & Hans & _).
  destruct (Hans eq_refl) as (_ & Hhead & _).
  exact (conj H1 (conj H2 (conj H3 (conj H4 (conj H5 (Hhead H5)))))).
Defined.

(** X13. The edit flow on page 0. A tap on the card of a stored note
    whose id is not 0 opens the dialog on that note with its text as
    draft; after a new draft that does not trim to the empty string and
    Salvar, that row has the draft as text, every other row, the number
    of rows and the id counter are as before, the dialog is closed with
    its target and draft cleared, and the list is page 0 of the search on
    screen in the new table when that query is answered, and as it was
    when that query is rejected. *)
Theorem edited_note_is_overwritten w d item t :
  db w = Some d -> page (cells w) = 0%nat ->
  Gateway.stored d item -> id item <> 0 -> Text.trim t <> "" ->
  let w1 := step w (PressCard item) in
  let w' := run [PressCard item; DraftChangeText t; PressSave] w in
  editDialog (cells w1) = EditingExisting (id item) (note item) /\
  exists d',
    db w' = Some d' /\
    rows d' = <[id item := t]> (rows d) /\
    seq d' = seq d /\
    size (rows d') = size (rows d) /\
    editDialog (cells w') = Closed /\
    editingNoteId (cells w') = None /\
    currentNote (cells w') = "" /\
    page (cells w') = 0%nat /\
    (Gateway.answers (search (cells w)) limit d' = true ->
     notes (cells w') = Gateway.search (search (cells w)) limit 0 d') /\
    (Gateway.answers (search (cells w)) limit d' = false ->
     notes (cells w') = notes (cells w)).
Proof.
  intros Hd Hp Hitem Hid Hb%not_blank_trim w1 w'.
  split; [reflexivity|].
  set (w2 := run [PressCard item; DraftChangeText t] w).
  assert (Hd2 : db w2 = Some d) by exact Hd.
  assert (E : w' = step w2 PressSave) by reflexivity.
  assert (Ef : fire PressSave w2 = updateNote (cells w2) w2).
  { unfold fire. change (handler (cells w2) PressSave) with (onSave (cells w2)).
    by rewrite (onSave_update (cells w2) (id item) eq_refl Hid). }
  unfold step in E. rewrite Ef in E.
  destruct (updateNote_resolved (cells w2) w2 d (id item) Hd2 Hb eq_refl)
    as (d' & Hd' & Eu).
  rewrite Eu in E. rewrite update_resolved in Hd'. injection Hd' as Hd'.
  cbn [world_of] in E.
  assert (Hrows : rows d' = <[id item := t]> (rows d)).
  { subst d'. simpl. apply map_eq. intros j.
    destruct (decide (j = id item)) as [->|Hne].
    - rewrite lookup_alter_eq, lookup_insert_eq.
      unfold Gateway.stored in Hitem. by rewrite Hitem.
    - by rewrite lookup_alter_ne, lookup_insert_ne. }
  assert (Hsize : size (rows d') = size (rows d))
    by (subst d'; apply size_alter).
  assert (Hseq : seq d' = seq d) by (by subst d').
  exists d'.
  match type of E with _ = reload ?r {| db := _; cells := ?c0 |} =>
    destruct (reload_cases r d' c0) as [[Ha Er]|[Ha Er]] end;
    rewrite Er in E; change (search (cells w2)) with (search (cells w)) in Ha;
    rewrite E, Ha; cbn [db cells].
  - split; [done|]. split; [done|]. split; [done|]. split; [done|].
    split; [done|]. split; [done|]. split; [done|]. split; [done|]. split; [|done].
    intros _. cbn [notes put_notes]. unfold loaded.
    change (page (cells w2)) with (page (cells w)). by rewrite Hp.
  - split; [done|]. split; [done|]. split; [done|]. split; [done|].
    split; [done|]. split; [done|]. split; [done|]. split; [done|]. split; [done|].
    intros _. by destruct w.
Qed.

Lemma edited_note_is_overwritten_witness :
  let w := mount (Some Sample.fruits) in
  let item := mkNote 1 "apple" in
  let w' := run [PressCard item; DraftChangeText "apricot"; PressSave] w in
  db w = Some Sample.fruits /\ page (cells w) = 0%nat /\
  Gateway.stored Sample.fruits item /\ id item <> 0 /\ Text.trim "apricot" <> "" /\
  exists d', db w' = Some d' /\ rows d' = <[1 := "apricot"]> (rows Sample.fruits).
Proof.
  intros w item w'.
  assert (H1 : db w = Some Sample.fruits) by reflexivity.
  assert (H2 : page (cells w) = 0%nat) by reflexivity.
  assert (H3 : Gateway.stored Sample.fruits item) by (vm_compute; reflexivity).
  assert (H4 : id item <> 0) by done.
  assert (H5 : Text.trim "apricot" <> "") by done.
  destruct (edited_note_is_overwritten w Sample.fruits item "apricot" H1 H2 H3 H4 H5)
    as (_ & d' & Hd' & Hrows & _).
  split; [exact H1|]. split; [exact H2|]. split; [exact H3|]. split; [exact H4|].
  split; [exact H5|]. exists d'. split; [exact Hd'|exact Hrows].
Defined.

(** X14. The delete flow on page 0. After the trash icon of a card and
    Sim, the row with the id of that card is gone, every other row and
    the id counter are as before, the dialog is closed and its target
    cleared, and the list is page 0 of the search on screen in the new
    table, in which no note has that id, when that query is answered, and
    as it was when that query is rejected. *)
Theorem confirmed_delete_removes_the_card w d item :
  db w = Some d -> page (cells w) = 0%nat ->
  let w' := run [PressTrash item; PressSim] w in
  let d' := {| rows := base.delete (id item) (rows d); seq := seq d |} in
  db w' = Some d' /\
  modalDeleteVisible (cells w') = false /\
  deleteNoteId (cells w') = None /\
  page (cells w') = 0%nat /\
  (Gateway.answers (search (cells w)) limit d' = true ->
   notes (cells w') = Gateway.search (search (cells w)) limit 0 d' /\
   (forall n, n ∈ notes (cells w') -> id n <> id item)) /\
  (Gateway.answers (search (cells w)) limit d' = false ->
   notes (cells w') = notes (cells w)).
Proof.
  intros Hd Hp w' d0.
  set (w1 := step w (PressTrash item)).
  assert (Hd1 : db w1 = Some d) by exact Hd.
  assert (E : w' = step w1 PressSim) by reflexivity.
  assert (Ef : fire PressSim w1 = deleteNote (cells w1) w1) by reflexivity.
  unfold step in E. rewrite Ef in E.
  destruct (deleteNote_resolved (cells w1) w1 d (id item) Hd1 eq_refl)
    as (d' & Hd' & Eu).
  rewrite Eu in E. rewrite delete_resolved in Hd'. injection Hd' as Hd'.
  fold d0 in Hd'. subst d'.
  cbn [world_of] in E.
  match type of E with _ = reload ?r {| db := _; cells := ?c0 |} =>
    destruct (reload_cases r d0 c0) as [[Ha Er]|[Ha Er]] end;
    rewrite Er in E; change (search (cells w1)) with (search (cells w)) in Ha;
    rewrite E, Ha; cbn [db cells].
  - split; [done|]. split; [done|]. split; [done|]. split; [done|].
    split; [|done]. intros _.
    assert (Hl : loaded (cells w1) d0 = Gateway.search (search (cells w)) limit 0 d0).
    { unfold loaded. change (page (cells w1)) with (page (cells w)). by rewrite Hp. }
    cbn [notes put_notes]. rewrite Hl. split; [done|].
    intros n [Hn _]%elem_of_search_stored Hid. unfold Gateway.stored in Hn.
    simpl in Hn. rewrite Hid, lookup_delete_eq in Hn. done.
  - split; [done|]. split; [done|]. split; [done|]. split; [done|].
    split; [done|]. intros _. by destruct w.
Qed.

Lemma confirmed_delete_removes_the_card_witness :
  let w := mount (Some Sample.fruits) in
  let w' := run [PressTrash (mkNote 2 "banana"); PressSim] w in
  db w = Some Sample.fruits /\ page (cells w) = 0%nat /\
  notes (cells w') = [mkNote 1 "apple"] /\
  deleteNoteId (cells w') = None.
Proof.
  intros w w'.
  assert (H1 : db w = Some Sample.fruits) by reflexivity.
  assert (H2 : page (cells w) = 0%nat) by reflexivity.
  destruct (confirmed_delete_removes_the_card w Sample.fruits (mkNote 2 "banana") H1 H2)
    as (_ & _ & Hid & _).
  split; [exact H1|]. split; [exact H2|]. split; [vm_compute; reflexivity|exact Hid].
Defined.

(** X15. Salvar on a new note whose insert the table refuses stops at
    the insert: the handler ends with the error and no cell is written, so
    the dialog is still open on the draft, and the table is as before. *)
Theorem refused_insert_changes_nothing w d e :
  db w = Some d ->
  truthy_id (editingNoteId (cells w)) = false ->
  Text.trim (currentNote (cells w)) <> "" ->
  Gateway.create (currentNote (cells w)) d = Rejected e ->
  fire PressSave w = Thrown (SqlError e) w /\ step w PressSave = w.
Proof.
  intros Hd Hnew Hb%not_blank_trim Hc.
  assert (E : fire PressSave w = Thrown (SqlError e) w).
  { unfold fire. simpl handler. unfold onSave. rewrite Hnew.
    by apply (addNote_rejected _ w d e). }
  split; [done|]. unfold step. by rewrite E.
Qed.

Lemma refused_insert_changes_nothing_witness :
  let d := {| rows := ∅; seq := MAX_ROWID |} in
  let w := run [PressAdd; DraftChangeText "last"] (mount (Some d)) in
  db w = Some d /\
  truthy_id (editingNoteId (cells w)) = false /\
  Text.trim (currentNote (cells w)) <> "" /\
  Gateway.create (currentNote (cells w)) d = Rejected SQLITE_FULL /\
  step w PressSave = w.
Proof.
  intros d w.
  assert (H1 : db w = Some d) by reflexivity.
  assert (H2 : truthy_id (editingNoteId (cells w)) = false) by reflexivity.
  assert (H3 : Text.trim (currentNote (cells w)) <> "") by done.
  assert (H4 : Gateway.create (currentNote (cells w)) d = Rejected SQLITE_FULL)
    by (vm_compute; reflexivity).
  exact (conj H1 (conj H2 (conj H3 (conj H4
           (proj2 (refused_insert_changes_nothing w d SQLITE_FULL H1 H2 H3 H4)))))).
Defined.

Lemma step_save_guard w :
  Text.blank (currentNote (cells w)) = true \/ db w = None ->
  step w PressSave = w.
Proof.
  intros H. unfold step, fire. simpl handler. unfold onSave.
  destruct (truthy_id _).
  - rewrite updateNote_guard; [done|]. destruct H; [by left|by right; right].
  - by rewrite addNote_guard.
Qed.

(** X16. A second tap on Salvar, or on Sim, that comes after the first
    one is over changes nothing: the draft and the delete target were
    cleared by the first, so the second stops at its guard (and a refused
    insert is refused again). *)
Theorem second_tap_changes_nothing w :
  step (step w PressSave) PressSave = step w PressSave /\
  step (step w PressSim) PressSim = step w PressSim.
Proof.
  split.
  - destruct (step_save_cases w) as [E|(d' & v & i & E & _)]; [by rewrite !E|].
    rewrite E. apply step_save_guard. left.
    match goal with |- context [reload ?r ?x] =>
      destruct (reload_cells r x) as [l ->] end. done.
  - assert (Hguard : forall w0, db w0 = None \/ deleteNoteId (cells w0) = None ->
              step w0 PressSim = w0).
    { intros w0 H. unfold step, fire. simpl handler.
      rewrite deleteNote_guard; [done|]. destruct H; [by right|by left]. }
    destruct (db w) as [d|] eqn:Hd.
    2:{ rewrite !(Hguard w); [done|by left|by left]. }
    destruct (deleteNoteId (cells w)) as [i|] eqn:Hi.
    2:{ rewrite !(Hguard w); [done|by right|by right]. }
    assert (E : exists d' c0, step w PressSim = reload (cells w) {| db := Some d'; cells := c0 |}
                              /\ deleteNoteId c0 = None).
    { unfold step, fire. simpl handler.
      destruct (deleteNote_resolved _ w d i Hd Hi) as (d' & _ & ->).
      by eexists _, _. }
    destruct E as (d' & c0 & -> & Hc0).
    apply Hguard. right.
    destruct (reload_cells (cells w) {| db := Some d'; cells := c0 |}) as [l ->].
    done.
Qed.

End Flows.

(** ** What every event keeps *)

Section Invariants.
Import SQLite App.

(** X9. Only Salvar and Sim write to the table: any other event leaves
    it as it is.  No event closes the table once it is open, lowers its
    id counter, or changes its number of rows by more than one. *)
Theorem only_save_and_confirm_write w e :
  (e <> PressSave -> e <> PressSim -> db (step w e) = db w) /\
  (forall d, db w = Some d ->
     exists d', db (step w e) = Some d' /\
                seq d <= seq d' /\
                (size (rows d) - 1 <= size (rows d') <= size (rows d) + 1)%nat).
Proof.
  split.
  - intros Hsave Hsim. destruct e; try done; try (destruct w; reflexivity).
    + apply (loadNotes_db (cells w)
        {| db := db w; cells := put_page 0 (put_search text (cells w)) |}).
    + apply (loadNotes_db (cells w)
        {| db := db w; cells := put_page (page (cells w) + 1) (cells w) |}).
  - intros d Hd. destruct (step_db w e) as [E|(d0 & d' & Hd0 & Hd' & Hop)].
    { exists d. rewrite E. split; [done|]. split; lia. }
    rewrite Hd in Hd0. injection Hd0 as <-. exists d'. split; [done|].
    destruct Hop as [(text & _ & Hc)|[(i & text & _ & Hu)|(i & Hdel)]].
    + unfold Gateway.create, runAsync in Hc.
      destruct (MAX_ROWID <=? high_water d); [done|]. injection Hc as <-. simpl.
      rewrite (map_size_insert_None _ _ _ (next_rowid_fresh d)).
      pose proof (high_water_seq d). unfold next_rowid. lia.
    + rewrite update_resolved in Hu. injection Hu as <-. simpl.
      rewrite size_alter. lia.
    + rewrite delete_resolved in Hdel. injection Hdel as <-. simpl.
      rewrite map_size_delete. destruct (rows d !! i); simpl; lia.
Qed.

Lemma only_save_and_confirm_write_witness :
  let w := mount (Some Sample.fruits) in
  EndReached <> PressSave /\ EndReached <> PressSim /\
  db w = Some Sample.fruits /\
  db (step w EndReached) = db w /\
  exists d', db (step w PressSim) = Some d' /\ seq Sample.fruits <= seq d'.
Proof.
  intros w.
  assert (H1 : EndReached <> PressSave) by done.
  assert (H2 : EndReached <> PressSim) by done.
  assert (H3 : db w = Some Sample.fruits) by reflexivity.
  destruct (only_save_and_confirm_write w EndReached) as [Hframe _].
  destruct (only_save_and_confirm_write w PressSim) as [_ Hopen].
  destruct (Hopen _ H3) as (d' & Hd' & Hseq & _).
  split; [exact H1|]. split; [exact H2|]. split; [exact H3|].
  split; [exact (Hframe H1 H2)|]. exists d'. split; [exact Hd'|exact Hseq].
Defined.

Lemma elem_of_loaded r d n :
  n ∈ loaded r d -> n ∈ notes r \/ Gateway.stored d n.
Proof.
  unfold loaded. destruct (decide (page r = 0%nat)).
  - intros [H _]%elem_of_search_stored. by right.
  - intros [H|[H _]%elem_of_search_stored]%elem_of_app; [by left|by right].
Qed.

(** A note of the list after an event was there before, or is a row of
    the table after the event. *)
Lemma step_notes w e n :
  n ∈ notes (cells (step w e)) ->
  n ∈ notes (cells w) \/ exists d', db (step w e) = Some d' /\ Gateway.stored d' n.
Proof.
  assert (Hload : forall w0,
    n ∈ notes (cells (reload (cells w) w0)) ->
    notes (cells w0) = notes (cells w) ->
    n ∈ notes (cells w) \/
    exists d', db (reload (cells w) w0) = Some d' /\ Gateway.stored d' n).
  { intros w0 Hn H0. destruct (db w0) as [d0|] eqn:Hd0.
    - destruct (Gateway.answers (search (cells w)) limit d0) eqn:Ha.
      + rewrite (reload_answered _ w0 d0 Hd0 Ha) in Hn |- *. simpl in *.
        apply elem_of_loaded in Hn as [Hn|Hn]; [by left|]. right. by exists d0.
      + rewrite (reload_rejected _ w0 d0 Hd0 Ha) in Hn. left. by rewrite <- H0.
    - rewrite (reload_null _ w0 Hd0) in Hn. left. by rewrite <- H0. }
  destruct e; try (intros Hn; left; exact Hn).
  - intros Hn.
    by apply (Hload {| db := db w; cells := put_page 0 (put_search text (cells w)) |}).
  - intros Hn.
    by apply (Hload {| db := db w; cells := put_page (page (cells w) + 1) (cells w) |}).
  - destruct (step_save_cases w) as [->|(d' & v & i & -> & _)]; [by left|].
    intros Hn. by apply Hload in Hn.
  - destruct (db w) as [d|] eqn:Hd.
    2:{ unfold step, fire. simpl handler.
        rewrite deleteNote_guard; [by left|by right]. }
    destruct (deleteNoteId (cells w)) as [i|] eqn:Hi.
    + unfold step, fire. simpl handler.
      destruct (deleteNote_resolved _ w d i Hd Hi) as (d' & _ & ->).
      cbn [world_of]. intros Hn. by apply Hload in Hn.
    + unfold step, fire. simpl handler.
      rewrite deleteNote_guard; [by left|by left].
Qed.

Lemma step_ids_positive w e : View.ids_positive w -> View.ids_positive (step w e).
Proof.
  intros [Hrows Hnotes].
  assert (Hrows' : forall d i t,
            db (step w e) = Some d -> rows d !! i = Some t -> 1 <= i).
  { intros d2 i t E2 Hi.
    destruct (step_db w e) as [E|(d & d' & Hd & Hd' & Hop)].
    { rewrite E in E2. by apply (Hrows d2 i t). }
    rewrite Hd' in E2. injection E2 as <-.
    destruct Hop as [(text & _ & Hc)|[(j & text & _ & Hu)|(j & Hdel)]].
    - unfold Gateway.create, runAsync in Hc.
      destruct (MAX_ROWID <=? high_water d); [done|]. injection Hc as <-.
      simpl in Hi. apply lookup_insert_Some in Hi as [[<- _]|[_ Hi]].
      + unfold next_rowid, high_water, max_rowid.
        pose proof (max_list_nonneg (map_to_list (rows d)).*1). lia.
      + by apply (Hrows d i t).
    - rewrite update_resolved in Hu. injection Hu as <-. simpl in Hi.
      destruct (decide (j = i)) as [->|Hne].
      + rewrite lookup_alter_eq in Hi. destruct (rows d !! i) as [t0|] eqn:Ht; [|done].
        by apply (Hrows d i t0).
      + rewrite lookup_alter_ne in Hi by done. by apply (Hrows d i t).
    - rewrite delete_resolved in Hdel. injection Hdel as <-. simpl in Hi.
      apply lookup_delete_Some in Hi as [_ Hi]. by apply (Hrows d i t). }
  split; [exact Hrows'|].
  intros n [Hn|(d' & Hd' & Hn)]%step_notes; [by apply Hnotes|].
  by apply (Hrows' d' (id n) (note n)).
Qed.

(** X17. Ids start at 1 and stay there. When the rows on disk have ids
    of at least 1, as rows made by the application have, then after the
    first load and any sequence of events every row and every note of the
    list has an id of at least 1; so for every note of the list, a tap on
    its card followed by Salvar runs [updateNote] on that note, never
    [addNote]. *)
Theorem listed_notes_are_updated_on_save disk es :
  (forall d i t, disk = Some d -> rows d !! i = Some t -> 1 <= i) ->
  let w := run es (mount disk) in
  View.ids_positive w /\
  (forall n, n ∈ notes (cells w) ->
     let w1 := step w (PressCard n) in
     editingNoteId (cells w1) = Some (id n) /\
     fire PressSave w1 = updateNote (cells w1) w1).
Proof.
  intros Hdisk w.
  assert (H0 : View.ids_positive (mount disk)).
  { split.
    - intros d i t [= <-] Hi. destruct disk as [d0|]; simpl in Hi.
      + by apply (Hdisk d0 i t).
      + by rewrite lookup_empty in Hi.
    - intros n [Hn _]%elem_of_search_stored. unfold Gateway.stored in Hn.
      destruct disk as [d0|]; simpl in Hn.
      + by apply (Hdisk d0 (id n) (note n)).
      + by rewrite lookup_empty in Hn. }
  assert (Hrun : forall es0 w0, View.ids_positive w0 -> View.ids_positive (run es0 w0)).
  { induction es0 as [|e es0 IH]; intros w0 Hw0; [done|].
    apply IH. by apply step_ids_positive. }
  pose proof (Hrun es _ H0) as Hw. fold w in Hw. split; [exact Hw|].
  intros n Hn w1. split; [reflexivity|].
  destruct Hw as [_ Hnotes]. specialize (Hnotes n Hn).
  unfold fire. change (handler (cells w1) PressSave) with (onSave (cells w1)).
  rewrite (onSave_update (cells w1) (id n) eq_refl); [done|lia].
Qed.

Lemma listed_notes_are_updated_on_save_witness :
  let disk : option DB := None in
  let es := [PressAdd; DraftChangeText "first"; PressSave; EndReached] in
  let w := run es (mount disk) in
  (forall d i t, disk = Some d -> rows d !! i = Some t -> 1 <= i) /\
  mkNote 1 "first" ∈ notes (cells w) /\
  fire PressSave (step w (PressCard (mkNote 1 "first")))
  = updateNote (cells (step w (PressCard (mkNote 1 "first"))))
      (step w (PressCard (mkNote 1 "first"))).
Proof.
  intros disk es w.
  assert (H1 : forall d i t, disk = Some d -> rows d !! i = Some t -> 1 <= i)
    by (intros d i t [=]).
  assert (H2 : mkNote 1 "first" ∈ notes (cells w))
    by (vm_compute; apply list_elem_of_here).
  destruct (listed_notes_are_updated_on_save disk es H1) as [_ H].
  exact (conj H1 (conj H2 (proj2 (H _ H2)))).
Defined.

End Invariants.

(** ** Longer terms, and the case of the term *)

Section Terms.
Import SQLite Gateway.

(** A pattern made of two parts matches the texts made of a part that
    matches the first and a part that matches the second. *)
Lemma like_app p q : forall text,
  Text.like (p +:+ q) text = true <->
  exists s1 s2, text = s1 +:+ s2 /\ Text.like p s1 = true /\ Text.like q s2 = true.
Proof.
  induction p as [|c p IH]; intros text.
  - rewrite append_empty_l. split.
    + intros H. by exists "", text.
    + intros (s1 & s2 & -> & H1 & H2). by destruct s1.
  - rewrite append_cons.
    destruct (Ascii.eqb c Text.percent) eqn:Ec;
      [|destruct (Ascii.eqb c Text.underscore) eqn:Eu].
    + apply Ascii.eqb_eq in Ec as ->. rewrite like_percent. split.
      * intros (pre & rest & -> & H). apply IH in H as (r1 & r2 & -> & H1 & H2).
        exists (pre +:+ r1), r2. split; [by rewrite append_assoc|].
        split; [|done]. apply like_percent. by exists pre, r1.
      * intros (s1 & s2 & -> & H1 & H2).
        apply like_percent in H1 as (pre & r1 & -> & H1).
        exists pre, (r1 +:+ s2). split; [by rewrite append_assoc|].
        apply IH. by exists r1, s2.
    + simpl Text.like. rewrite Ec, Eu. destruct text as [|x text].
      * split; [done|]. intros (s1 & s2 & E & H1 & H2). by destruct s1.
      * rewrite IH. split.
        -- intros (r1 & r2 & -> & H1 & H2). by exists (String x r1), r2.
        -- intros (s1 & s2 & E & H1 & H2). destruct s1 as [|y s1]; [done|].
           rewrite append_cons in E. injection E as -> ->. by exists s1, s2.
    + simpl Text.like. rewrite Ec, Eu. destruct text as [|x text].
      * split; [done|]. intros (s1 & s2 & E & H1 & H2). by destruct s1.
      * rewrite andb_true_iff, IH. split.
        -- intros [Hx (r1 & r2 & -> & H1 & H2)]. exists (String x r1), r2.
           split; [done|]. split; [|done]. by rewrite Hx.
        -- intros (s1 & s2 & E & H1 & H2). destruct s1 as [|y s1]; [done|].
           rewrite append_cons in E. injection E as -> ->.
           apply andb_true_iff in H1 as [Hx H1]. split; [done|]. by exists s1, s2.
Qed.

(** X21. A longer term narrows the search: whatever [search] returns
    for a term made of two parts, at any limit and offset, is among the
    rows it finds for each part alone. *)
Theorem longer_term_narrows t1 t2 limit offset d n :
  n ∈ search (t1 +:+ t2) limit offset d ->
  n ∈ search t1 (size (rows d)) 0 d /\ n ∈ search t2 (size (rows d)) 0 d.
Proof.
  intros [Hn Hlike]%elem_of_search_stored.
  apply like_contains in Hlike as (pre & mid & post & E & Hmid).
  apply like_app in Hmid as (m1 & m2 & -> & H1 & H2).
  split; apply elem_of_search_all; (split; [done|]); apply like_contains.
  - exists pre, m1, (m2 +:+ post). split; [|done]. by rewrite E, append_assoc.
  - exists (pre +:+ m1), m2, post. split; [|done]. by rewrite E, !append_assoc.
Qed.

Lemma longer_term_narrows_witness :
  mkNote 2 "banana" ∈ search ("ba" +:+ "na") 50 0 Sample.fruits /\
  mkNote 2 "banana" ∈ search "ba" (size (rows Sample.fruits)) 0 Sample.fruits /\
  mkNote 2 "banana" ∈ search "na" (size (rows Sample.fruits)) 0 Sample.fruits.
Proof.
  assert (H : mkNote 2 "banana" ∈ search ("ba" +:+ "na") 50 0 Sample.fruits)
    by (vm_compute; apply list_elem_of_here).
  exact (conj H (longer_term_narrows "ba" "na" 50 0 Sample.fruits _ H)).
Defined.

Lemma tolower_idem c : Text.tolower (Text.tolower c) = Text.tolower c.
Proof. destruct c as [[] [] [] [] [] [] [] []]; reflexivity. Qed.

Lemma tolower_percent c :
  Ascii.eqb (Text.tolower c) Text.percent = Ascii.eqb c Text.percent.
Proof. destruct c as [[] [] [] [] [] [] [] []]; reflexivity. Qed.

Lemma tolower_underscore c :
  Ascii.eqb (Text.tolower c) Text.underscore = Ascii.eqb c Text.underscore.
Proof. destruct c as [[] [] [] [] [] [] [] []]; reflexivity. Qed.

Lemma like_nocase p : forall q text,
  Text.same_nocase p q = true -> Text.like p text = Text.like q text.
Proof.
  induction p as [|a p IH]; intros [|b q] text H; try done.
  simpl in H. apply andb_true_iff in H as [Hab H]. apply Ascii.eqb_eq in Hab.
  assert (Hp : Ascii.eqb a Text.percent = Ascii.eqb b Text.percent)
    by (by rewrite <- (tolower_percent a), <- (tolower_percent b), Hab).
  assert (Hu : Ascii.eqb a Text.underscore = Ascii.eqb b Text.underscore)
    by (by rewrite <- (tolower_underscore a), <- (tolower_underscore b), Hab).
  destruct (Ascii.eqb a Text.percent) eqn:Ea.
  - apply Ascii.eqb_eq in Ea as ->. symmetry in Hp. apply Ascii.eqb_eq in Hp as ->.
    induction text as [|x text IHt].
    + rewrite (like_percent_unfold p ""), (like_percent_unfold q "").
      by rewrite (IH q "" H).
    + rewrite (like_percent_unfold p (String x text)),
        (like_percent_unfold q (String x text)).
      by rewrite (IH q _ H), IHt.
  - simpl. rewrite Ea, <- Hp, Hu.
    destruct (Ascii.eqb b Text.underscore); destruct text as [|x text]; try done.
    + by apply IH.
    + by rewrite Hab, (IH q text H).
Qed.

Lemma same_nocase_pattern t1 : forall t2,
  Text.same_nocase t1 t2 = true ->
  Text.same_nocase ("%" +:+ t1 +:+ "%") ("%" +:+ t2 +:+ "%") = true.
Proof.
  assert (Hend : forall a b, Text.same_nocase a b = true ->
                 Text.same_nocase (a +:+ "%") (b +:+ "%") = true).
  { induction a as [|x a IH]; intros [|y b] H; try done.
    rewrite !append_cons. cbn [Text.same_nocase] in *.
    apply andb_true_iff in H as [Hxy H]. by rewrite Hxy, (IH b H). }
  intros t2 H. by apply (Hend t1 t2) in H.
Qed.

(** X22. The case of the letters A..Z in the term does not count: two
    terms that are equal up to that case return the same rows, at every
    limit and offset. *)
Theorem term_case_does_not_count t1 t2 limit offset d :
  Text.same_nocase t1 t2 = true ->
  search t1 limit offset d = search t2 limit offset d.
Proof.
  intros H. unfold search, select_rows. do 2 f_equal. apply where_like_ext.
  intros s. by apply like_nocase, same_nocase_pattern.
Qed.

Lemma term_case_does_not_count_witness :
  Text.same_nocase "BAN" "ban" = true /\
  search "BAN" 50 0 Sample.fruits = search "ban" 50 0 Sample.fruits.
Proof.
  assert (H : Text.same_nocase "BAN" "ban" = true) by reflexivity.
  exact (conj H (term_case_does_not_count "BAN" "ban" 50 0 Sample.fruits H)).
Defined.

End Terms.

(** ** Cancelling, and mutations while the list is scrolled *)

Section Stale.
Import SQLite App.

(** X18. A draft that is abandoned is neither saved nor shown again:
    after a tap on a card, a new draft and the X of the dialog, the table
    and the list are as before and the dialog is closed; the next opening
    starts from the empty draft (floating button) or from the text of the
    tapped card, not from the abandoned draft or its target. *)
Theorem abandoned_draft_leaves_no_trace w item t :
  let w1 := run [PressCard item; DraftChangeText t; PressClose] w in
  db w1 = db w /\
  notes (cells w1) = notes (cells w) /\
  editDialog (cells w1) = Closed /\
  editDialog (cells (step w1 PressAdd)) = EditingNew "" /\
  (forall other,
     editDialog (cells (step w1 (PressCard other)))
     = EditingExisting (id other) (note other)).
Proof. repeat split. Qed.

(** X19. A delete while the list is scrolled. When the page counter is
    not 0, Sim after the trash icon of a card deletes the row and resets
    the counter to 0, but the list is the one on screen followed by the
    page of the old counter in the new table (or the one on screen alone,
    when that query is rejected): the deleted note is still
    listed. *)
Theorem deleted_note_stays_listed_when_scrolled w d item :
  db w = Some d -> page (cells w) <> 0%nat -> item ∈ notes (cells w) ->
  let w' := run [PressTrash item; PressSim] w in
  let d' := {| rows := base.delete (id item) (rows d); seq := seq d |} in
  db w' = Some d' /\
  rows d' !! id item = None /\
  page (cells w') = 0%nat /\
  (Gateway.answers (search (cells w)) limit d' = true ->
   notes (cells w') =
     notes (cells w) ++
     Gateway.search (search (cells w)) limit (page (cells w) * limit) d') /\
  (Gateway.answers (search (cells w)) limit d' = false ->
   notes (cells w') = notes (cells w)) /\
  item ∈ notes (cells w').
Proof.
  intros Hd Hp Hitem w' d'.
  set (w1 := step w (PressTrash item)).
  assert (Hd1 : db w1 = Some d) by exact Hd.
  assert (E : w' = step w1 PressSim) by reflexivity.
  assert (Ef : fire PressSim w1 = deleteNote (cells w1) w1) by reflexivity.
  unfold step in E. rewrite Ef in E.
  destruct (deleteNote_resolved (cells w1) w1 d (id item) Hd1 eq_refl)
    as (d2 & Hd2 & Eu).
  rewrite Eu in E. rewrite delete_resolved in Hd2. injection Hd2 as Hd2.
  cbn [world_of] in E. fold d' in Hd2. subst d2.
  assert (Hl : loaded (cells w1) d' =
               notes (cells w) ++
               Gateway.search (search (cells w)) limit (page (cells w) * limit) d').
  { unfold loaded. change (page (cells w1)) with (page (cells w)).
    destruct (decide (page (cells w) = 0%nat)); done. }
  match type of E with _ = reload ?r {| db := _; cells := ?c0 |} =>
    destruct (reload_cases r d' c0) as [[Ha Er]|[Ha Er]] end;
    rewrite Er in E; change (search (cells w1)) with (search (cells w)) in Ha;
    rewrite E, Ha; cbn [db cells notes put_notes].
  - rewrite Hl.
    split; [done|]. split; [apply lookup_delete_eq|]. split; [done|].
    split; [done|]. split; [done|]. apply elem_of_app. by left.
  - split; [done|]. split; [apply lookup_delete_eq|]. split; [done|].
    split; [done|]. split; [intros _; by destruct w|]. by destruct w.
Qed.

Lemma deleted_note_stays_listed_when_scrolled_witness :
  let w := step (mount (Some Sample.fruits)) EndReached in
  let item := mkNote 2 "banana" in
  let w' := run [PressTrash item; PressSim] w in
  db w = Some Sample.fruits /\ page (cells w) <> 0%nat /\ item ∈ notes (cells w) /\
  item ∈ notes (cells w') /\ page (cells w') = 0%nat.
Proof.
  intros w item w'.
  assert (H1 : db w = Some Sample.fruits) by reflexivity.
  assert (H2 : page (cells w) <> 0%nat) by done.
  assert (H3 : item ∈ notes (cells w)) by (vm_compute; apply list_elem_of_here).
  destruct (deleted_note_stays_listed_when_scrolled w Sample.fruits item H1 H2 H3)
    as (_ & _ & Hp & _ & _ & Hin).
  exact (conj H1 (conj H2 (conj H3 (conj Hin Hp)))).
Defined.

(** X20. Typing, then scrolling. After a change of the term to one
    whose query is answered, followed by [k + 1] arrivals at the end of
    the list, the list holds the first [(k + 1) * 50] rows of the search
    for the new term: the first scroll brings the list, which the
    keystroke had left on the old term, to page 0 of the new one.  After
    a change to a term whose query is rejected the scrolls leave
    the list as the keystroke left it. *)
Theorem scroll_after_typing_shows_new_term d c t k :
  let w1 := step {| db := Some d; cells := c |} (SearchChangeText t) in
  let w := run (SearchChangeText t :: replicate (S k) EndReached)
             {| db := Some d; cells := c |} in
  db w = Some d /\
  search (cells w) = t /\
  page (cells w) = S k /\
  (Gateway.answers t limit d = true ->
   notes (cells w) = Gateway.search t (S k * limit) 0 d) /\
  (Gateway.answers t limit d = false -> notes (cells w) = notes (cells w1)).
Proof.
  intros w1 w.
  assert (E : w = run (replicate (S k) EndReached) w1) by reflexivity.
  destruct (step_SearchChangeText_world d c t) as [l Hl]. fold w1 in Hl.
  rewrite Hl in E. rewrite E, Hl. clear E Hl.
  set (c1 := put_notes l (put_page 0 (put_search t c))).
  destruct (Gateway.answers t limit d) eqn:Ha.
  - rewrite (scroll_closed d c1 k eq_refl Ha).
    split; [done|]. split; [done|]. split; [done|]. split; done.
  - rewrite (scroll_rejected d c1 (S k) Ha).
    split; [done|]. split; [done|]. split; [done|]. split; done.
Qed.

Lemma scroll_after_typing_shows_new_term_witness :
  let d := Sample.fruits in
  let w0 := {| db := Some d; cells := initial |} in
  Gateway.answers "b" limit d = true /\
  notes (cells (run (SearchChangeText "b" :: replicate 2 EndReached) w0))
  = Gateway.search "b" (2 * limit) 0 d /\
  Gateway.answers Sample.long_term limit d = false /\
  notes (cells (run (SearchChangeText Sample.long_term :: replicate 2 EndReached) w0))
  = notes (cells (step w0 (SearchChangeText Sample.long_term))).
Proof.
  intros d w0.
  assert (Ha : Gateway.answers "b" limit d = true) by reflexivity.
  destruct (scroll_after_typing_shows_new_term d initial "b" 1) as (_ & _ & _ & Hans & _).
  pose proof (Hans Ha) as H1. clear Hans.
  assert (Hl : Gateway.answers Sample.long_term limit d = false) by (vm_compute; reflexivity).
  exact (conj Ha (conj H1 (conj Hl
    (proj2 (proj2 (proj2 (proj2
       (scroll_after_typing_shows_new_term d initial Sample.long_term 1)))) Hl)))).
Defined.

End Stale.
